(** * The mock CQF service (services/cqfService.ts)

    A shallow embedding of the in-memory "counting quotient filter" service
    of the CQF Manager UI and of its key-export helper, followed by the
    properties of the filter contract that hold (or fail) on it.

    The service keeps one module-level [Map<string, Set<string>>].  Every
    exported operation is an [async] function whose only suspension point
    is the leading [await delay(ms)]; the rest of the body runs to
    completion without yielding, so each call acts on the store in one
    step.  An operation is therefore a function from the store to a settled
    promise (fulfilled with a value, or rejected with an [Error]) and the
    store it leaves behind. *)

From stdpp Require Import gmap strings list fin_maps fin_sets pretty.

Local Open Scope string_scope.

(** ** JavaScript values used by the service *)

(** [Set<string>]: the service only calls the constructor, [has], [add],
    [delete]; all of them depend on membership alone (strings are compared
    by content), so the iteration order of a JS Set is not represented. *)
Abbreviation JsSet := (gset string).

Definition Set_has (key : string) (set : JsSet) : bool :=
  bool_decide (key ∈ set).

Definition Set_add (key : string) (set : JsSet) : JsSet :=
  {[ key ]} ∪ set.

(** [set.delete(key)] returns whether the element was present and removes
    it. *)
Definition Set_delete (key : string) (set : JsSet) : bool * JsSet :=
  (bool_decide (key ∈ set), set ∖ {[ key ]}).

(** [new Set(iterable)] starts from the empty set and [add]s the elements
    of the iterable in order. *)
Definition Set_new (keys : list string) : JsSet :=
  foldl (λ set key, Set_add key set) ∅ keys.

Definition Set_size (set : JsSet) : nat := size set.

(** [new Error(msg)] *)
Record Error := { error_message : string }.

(** ** The backend store and the promise monad *)

(** [mockBackendStore : Map<string, Set<string>>].  A Set object is only
    ever created by [new Set(keys)] inside [buildCQF] and is referenced
    from exactly one map entry (it is never returned nor stored twice), so
    an in-place mutation of the Set found under a name is the update of
    that entry. *)
Abbreviation Store := (gmap string (gset string)).

Definition mockBackendStore_init : Store := ∅.

Inductive Settled (A : Type) : Type :=
  | Fulfilled (a : A)
  | Rejected (e : Error).
Arguments Fulfilled {A} a.
Arguments Rejected {A} e.

Definition Async (A : Type) : Type := Store → Settled A * Store.

#[global] Instance Async_ret : MRet Async :=
  λ A a σ, (Fulfilled a, σ).

#[global] Instance Async_bind : MBind Async :=
  λ A B f m σ,
    match m σ with
    | (Fulfilled a, σ') => f a σ'
    | (Rejected e, σ') => (Rejected e, σ')
    end.

Definition throw {A : Type} (e : Error) : Async A :=
  λ σ, (Rejected e, σ).

(** [await delay(ms)]: the timer has no effect on the store. *)
Definition delay (ms : nat) : Async unit := mret ().

(** [mockBackendStore.get(tableName)]; [None] stands for [undefined], the
    only value for which the guard [if (!set)] of the callers fires (a Set
    object is truthy, even when empty). *)
Definition Map_get (tableName : string) : Async (option JsSet) :=
  λ σ, (Fulfilled (σ !! tableName), σ).

(** [mockBackendStore.set(tableName, set)] *)
Definition Map_set (tableName : string) (set : JsSet) : Async unit :=
  λ σ, (Fulfilled (), <[ tableName := set ]> σ).

(** The new contents of the Set object held under [tableName] after a
    mutating method was called on it. *)
Definition mutated (tableName : string) (set : JsSet) : Async unit :=
  λ σ, (Fulfilled (), <[ tableName := set ]> σ).

(** ** The service *)

Record BuildResponse := { build_success : bool; message : string }.
Record SearchResponse := { found : bool }.
Record MutateResponse := { success : bool }.

Definition not_built : Error :=
  {| error_message := "Filter not built for this table" |}.

(** The template literal of [buildCQF]; [pretty] prints the decimal
    digits of the array length. *)
Definition build_message (tableName : string) (n : nat) : string :=
  "CQF built successfully for " +:+ tableName +:+ " with "
    +:+ pretty n +:+ " keys.".

Definition buildCQF (tableName : string) (keys : list string)
  : Async BuildResponse :=
  _ ← delay 1500;
  _ ← Map_set tableName (Set_new keys);
  mret {| build_success := true;
          message := build_message tableName (length keys) |}.

Definition searchCQF (tableName key : string) : Async SearchResponse :=
  _ ← delay 300;
  set ← Map_get tableName;
  match set with
  | None => throw not_built
  | Some set => mret {| found := Set_has key set |}
  end.

Definition insertCQF (tableName key : string) : Async MutateResponse :=
  _ ← delay 500;
  set ← Map_get tableName;
  match set with
  | None => throw not_built
  | Some set =>
      _ ← mutated tableName (Set_add key set);
      mret {| success := true |}
  end.

Definition deleteCQF (tableName key : string) : Async MutateResponse :=
  _ ← delay 500;
  set ← Map_get tableName;
  match set with
  | None => throw not_built
  | Some set =>
      let '(deleted, set') := Set_delete key set in
      _ ← mutated tableName set';
      mret {| success := deleted |}
  end.

(** [Array.prototype.join(sep)] on an array of strings: the result starts
    empty; before every element but the first the separator is appended,
    then the element. *)
Fixpoint Array_join_from (sep : string) (R : string) (k : nat)
    (elems : list string) : string :=
  match elems with
  | [] => R
  | e :: rest =>
      let R := if decide (0 < k)%nat then R +:+ sep else R in
      Array_join_from sep (R +:+ e) (S k) rest
  end.

Definition Array_join (sep : string) (elems : list string) : string :=
  Array_join_from sep "" 0 elems.

(** The one-character string ['\n'] (line feed, code 10). *)
Definition LF : string := String (Ascii.ascii_of_nat 10) EmptyString.

Definition generatePKFileContent (keys : list string) : string :=
  Array_join LF keys.

(** ** Sequences of calls *)

Inductive Op :=
  | Build (tableName : string) (keys : list string)
  | Search (tableName key : string)
  | Insert (tableName key : string)
  | Delete (tableName key : string).

Inductive Response :=
  | BuildR (r : BuildResponse)
  | SearchR (r : SearchResponse)
  | MutateR (r : MutateResponse).

(** One call of the service, as the UI handlers issue them. *)
Definition call (o : Op) : Async Response :=
  match o with
  | Build t keys => r ← buildCQF t keys; mret (BuildR r)
  | Search t key => r ← searchCQF t key; mret (SearchR r)
  | Insert t key => r ← insertCQF t key; mret (MutateR r)
  | Delete t key => r ← deleteCQF t key; mret (MutateR r)
  end.

(** The store after one call, whatever the promise settled to (the
    handlers catch a rejection and carry on). *)
Definition step (o : Op) (σ : Store) : Store := (call o σ).2.

Definition run (ops : list Op) (σ : Store) : Store :=
  foldl (λ σ o, step o σ) σ ops.

Definition is_build_of (t : string) (o : Op) : bool :=
  match o with
  | Build t' _ => bool_decide (t' = t)
  | _ => false
  end.

Definition is_delete_of (t key : string) (o : Op) : bool :=
  match o with
  | Delete t' key' => bool_decide (t' = t) && bool_decide (key' = key)
  | _ => false
  end.

(** "Number of distinct keys" in the words of the contract. *)
Definition distinct_count (keys : list string) : nat :=
  length (remove_dups keys).

(** The store of the end-to-end scenario: [build("users", ["1","2","3"])]
    on a fresh page. *)
Definition users_store : Store :=
  (buildCQF "users" ["1"; "2"; "3"] mockBackendStore_init).2.

(** What [join] appends after the first element: every further element
    preceded by the separator. *)
Definition join_rest (sep : string) (elems : list string) : string :=
  foldr (λ e acc, sep +:+ e +:+ acc) "" elems.

(** Total number of characters of the keys. *)
Definition total_length (keys : list string) : nat :=
  sum_list (String.length <$> keys).

(** ** Vocabulary for properties of call sequences *)

(** The table a call addresses. *)
Definition op_table (o : Op) : string :=
  match o with
  | Build t _ | Search t _ | Insert t _ | Delete t _ => t
  end.

Definition is_search (o : Op) : bool :=
  match o with
  | Search _ _ => true
  | _ => false
  end.

(** Whether key [k] of table [t] is present after call [o], given whether
    it was present before, for a table that is built: a build of [t]
    decides by its key array, an insert of [k] into [t] makes it present, a
    delete of [k] from [t] makes it absent, and nothing else matters. *)
Definition presence_after (t k : string) (o : Op) (before : bool) : bool :=
  match o with
  | Build t' keys =>
      if bool_decide (t' = t) then bool_decide (k ∈ keys) else before
  | Insert t' k' =>
      if bool_decide (t' = t) && bool_decide (k' = k) then true else before
  | Delete t' k' =>
      if bool_decide (t' = t) && bool_decide (k' = k) then false else before
  | Search _ _ => before
  end.

Definition presence_after_all (t k : string) (ops : list Op) (before : bool)
  : bool :=
  foldl (λ b o, presence_after t k o b) before ops.

(** What a call writes into the entry of its table, if anything, given
    the entry it finds: read off the four operations. *)
Definition written (o : Op) (entry : option JsSet) : option JsSet :=
  match o with
  | Build _ keys => Some (Set_new keys)
  | Search _ _ => None
  | Insert _ key => Set_add key <$> entry
  | Delete _ key => (λ set, set ∖ {[ key ]}) <$> entry
  end.

(** ** Reading the exported file back *)

Definition LF_char : Ascii.ascii := Ascii.ascii_of_nat 10.

Fixpoint has_LF (s : string) : bool :=
  match s with
  | EmptyString => false
  | String c s' => bool_decide (c = LF_char) || has_LF s'
  end.

(** [content.split('\n')]: the pieces between the line feeds; the empty
    string gives one empty piece. *)
Fixpoint split_LF (s : string) : list string :=
  match s with
  | EmptyString => [EmptyString]
  | String c s' =>
      if bool_decide (c = LF_char) then EmptyString :: split_LF s'
      else match split_LF s' with
           | [] => [String c EmptyString]
           | piece :: pieces => String c piece :: pieces
           end
  end.

(** * The database service (services/dbService.ts) *)

(** A cell of a sql.js result row.  The code modelled here looks at a cell
    in two ways only: whether it is [null] (the table preview) and what
    [String(cell)] gives; a string, number or byte-array cell is kept as
    that text. *)
Inductive SqlValue :=
  | SqlNull
  | SqlShown (text : string).

(** One result set of [db.exec]: [{columns, values}]. *)
Record QueryExecResult := {
  columns : list string;
  values : list (list SqlValue)
}.

(** [db.exec(sql)] returns the array of result sets or throws. *)
Inductive ExecOutcome :=
  | ExecThrows (e : Error)
  | ExecReturns (results : list QueryExecResult).

(** The sql.js database object held in the module variable [db]; the
    service only calls [exec] (with read-only statements) and [close]. *)
Record Database := { exec : string → ExecOutcome }.

(** The double-quote character of the SQL templates. *)
Definition DQ : string := String (Ascii.ascii_of_nat 34) EmptyString.

(** [String(row[0])]: [None] is the [undefined] of an empty row. *)
Definition JS_String (v : option SqlValue) : string :=
  match v with
  | None => "undefined"
  | Some SqlNull => "null"
  | Some (SqlShown text) => text
  end.

Record TableInfo := {
  name : string;
  rowCount : N;
  pkColumn : option string;
  ti_columns : list string
}.

Record TableData := { td_columns : list string; td_rows : list (list SqlValue) }.

Definition no_TableData : TableData := {| td_columns := []; td_rows := [] |}.

(** The SQL text of [getTableData]. *)
Definition table_query (tableName : string) (limit : nat) : string :=
  "SELECT * FROM " +:+ DQ +:+ tableName +:+ DQ +:+ " LIMIT " +:+ pretty limit.

(** The SQL text of [getPrimaryKeys]. *)
Definition pk_query (tableName pkColumn : string) : string :=
  "SELECT " +:+ DQ +:+ pkColumn +:+ DQ +:+ " FROM " +:+ DQ +:+ tableName +:+ DQ.

Definition getTableData (db : option Database) (tableName : string)
    (limit : nat) : TableData :=
  match db with
  | None => no_TableData
  | Some d =>
      match exec d (table_query tableName limit) with
      | ExecThrows _ => no_TableData
      | ExecReturns [] => no_TableData
      | ExecReturns (r :: _) =>
          {| td_columns := columns r; td_rows := values r |}
      end
  end.

Definition getPrimaryKeys (db : option Database) (tableName pkColumn : string)
  : list string :=
  match db with
  | None => []
  | Some d =>
      match exec d (pk_query tableName pkColumn) with
      | ExecThrows _ => []
      | ExecReturns [] => []
      | ExecReturns (r :: _) => (λ row, JS_String (row !! 0)) <$> values r
      end
  end.

(** [resetDatabase]: closes the database, if any, and forgets it. *)
Definition resetDatabase (db : option Database) : option Database := None.

(** * The page (App.tsx) *)

(** The page is modelled as a transition system.  A handler runs up to its
    first [await] in one step; what it captured and still has to do is kept
    as a pending task, which settles in a later step (the service call on
    the store followed at once by the rest of the handler).  The state holds
    the React state of [App], the two module variables ([db],
    [mockBackendStore]) and, as a record of what the page did to the outside,
    the files it offered for download and the alerts it raised.  Output to
    the browser's debugging console is not represented. *)

Inductive CqfAction := ActSearch | ActInsert | ActDelete.

(** What reading and parsing an uploaded file and listing its tables leads
    to: the database cannot be opened; it opens but [getTables] throws; or
    it opens and [getTables] returns the tables. *)
Inductive UploadOutcome :=
  | LoadFails
  | TablesFail (d : Database)
  | Loaded (d : Database) (found_tables : list TableInfo).

Inductive Pending :=
  | PendingUpload (outcome : UploadOutcome)
  | PendingDownload (table : TableInfo) (pk : string)
  | PendingBuild (tableName : string) (keys : list string)
  | PendingAction (action : CqfAction) (tableName key : string).

Record AppState := MkAppState {
  db : option Database;
  mockBackendStore : Store;
  isDbLoaded : bool;
  tables : list TableInfo;
  selectedTable : option TableInfo;
  tableData : TableData;
  isLoading : bool;
  loadingMessage : string;
  cqfBuiltTables : gset string;
  cqfConsole : list string;
  searchKey : string;
  cqfOperationLoading : bool;
  pending : list Pending;
  downloads : list (string * string);
  alerts : list string
}.

Definition set_db (v : option Database) (s : AppState) : AppState :=
  {| db := v; mockBackendStore := mockBackendStore s;
     isDbLoaded := isDbLoaded s; tables := tables s;
     selectedTable := selectedTable s; tableData := tableData s;
     isLoading := isLoading s; loadingMessage := loadingMessage s;
     cqfBuiltTables := cqfBuiltTables s; cqfConsole := cqfConsole s;
     searchKey := searchKey s;
     cqfOperationLoading := cqfOperationLoading s; pending := pending s;
     downloads := downloads s; alerts := alerts s |}.

Definition set_mockBackendStore (v : Store) (s : AppState) : AppState :=
  {| db := db s; mockBackendStore := v; isDbLoaded := isDbLoaded s;
     tables := tables s; selectedTable := selectedTable s;
     tableData := tableData s; isLoading := isLoading s;
     loadingMessage := loadingMessage s;
     cqfBuiltTables := cqfBuiltTables s; cqfConsole := cqfConsole s;
     searchKey := searchKey s;
     cqfOperationLoading := cqfOperationLoading s; pending := pending s;
     downloads := downloads s; alerts := alerts s |}.

Definition set_isDbLoaded (v : bool) (s : AppState) : AppState :=
  {| db := db s; mockBackendStore := mockBackendStore s; isDbLoaded := v;
     tables := tables s; selectedTable := selectedTable s;
     tableData := tableData s; isLoading := isLoading s;
     loadingMessage := loadingMessage s;
     cqfBuiltTables := cqfBuiltTables s; cqfConsole := cqfConsole s;
     searchKey := searchKey s;
     cqfOperationLoading := cqfOperationLoading s; pending := pending s;
     downloads := downloads s; alerts := alerts s |}.

Definition set_tables (v : list TableInfo) (s : AppState) : AppState :=
  {| db := db s; mockBackendStore := mockBackendStore s;
     isDbLoaded := isDbLoaded s; tables := v;
     selectedTable := selectedTable s; tableData := tableData s;
     isLoading := isLoading s; loadingMessage := loadingMessage s;
     cqfBuiltTables := cqfBuiltTables s; cqfConsole := cqfConsole s;
     searchKey := searchKey s;
     cqfOperationLoading := cqfOperationLoading s; pending := pending s;
     downloads := downloads s; alerts := alerts s |}.

Definition set_selectedTable (v : option TableInfo) (s : AppState) : AppState :=
  {| db := db s; mockBackendStore := mockBackendStore s;
     isDbLoaded := isDbLoaded s; tables := tables s; selectedTable := v;
     tableData := tableData s; isLoading := isLoading s;
     loadingMessage := loadingMessage s;
     cqfBuiltTables := cqfBuiltTables s; cqfConsole := cqfConsole s;
     searchKey := searchKey s;
     cqfOperationLoading := cqfOperationLoading s; pending := pending s;
     downloads := downloads s; alerts := alerts s |}.

Definition set_tableData (v : TableData) (s : AppState) : AppState :=
  {| db := db s; mockBackendStore := mockBackendStore s;
     isDbLoaded := isDbLoaded s; tables := tables s;
     selectedTable := selectedTable s; tableData := v;
     isLoading := isLoading s; loadingMessage := loadingMessage s;
     cqfBuiltTables := cqfBuiltTables s; cqfConsole := cqfConsole s;
     searchKey := searchKey s;
     cqfOperationLoading := cqfOperationLoading s; pending := pending s;
     downloads := downloads s; alerts := alerts s |}.

Definition set_isLoading (v : bool) (s : AppState) : AppState :=
  {| db := db s; mockBackendStore := mockBackendStore s;
     isDbLoaded := isDbLoaded s; tables := tables s;
     selectedTable := selectedTable s; tableData := tableData s;
     isLoading := v; loadingMessage := loadingMessage s;
     cqfBuiltTables := cqfBuiltTables s; cqfConsole := cqfConsole s;
     searchKey := searchKey s;
     cqfOperationLoading := cqfOperationLoading s; pending := pending s;
     downloads := downloads s; alerts := alerts s |}.

Definition set_loadingMessage (v : string) (s : AppState) : AppState :=
  {| db := db s; mockBackendStore := mockBackendStore s;
     isDbLoaded := isDbLoaded s; tables := tables s;
     selectedTable := selectedTable s; tableData := tableData s;
     isLoading := isLoading s; loadingMessage := v;
     cqfBuiltTables := cqfBuiltTables s; cqfConsole := cqfConsole s;
     searchKey := searchKey s;
     cqfOperationLoading := cqfOperationLoading s; pending := pending s;
     downloads := downloads s; alerts := alerts s |}.

Definition set_cqfBuiltTables (v : gset string) (s : AppState) : AppState :=
  {| db := db s; mockBackendStore := mockBackendStore s;
     isDbLoaded := isDbLoaded s; tables := tables s;
     selectedTable := selectedTable s; tableData := tableData s;
     isLoading := isLoading s; loadingMessage := loadingMessage s;
     cqfBuiltTables := v; cqfConsole := cqfConsole s;
     searchKey := searchKey s;
     cqfOperationLoading := cqfOperationLoading s; pending := pending s;
     downloads := downloads s; alerts := alerts s |}.

Definition set_cqfConsole (v : list string) (s : AppState) : AppState :=
  {| db := db s; mockBackendStore := mockBackendStore s;
     isDbLoaded := isDbLoaded s; tables := tables s;
     selectedTable := selectedTable s; tableData := tableData s;
     isLoading := isLoading s; loadingMessage := loadingMessage s;
     cqfBuiltTables := cqfBuiltTables s; cqfConsole := v;
     searchKey := searchKey s;
     cqfOperationLoading := cqfOperationLoading s; pending := pending s;
     downloads := downloads s; alerts := alerts s |}.

Definition set_searchKey (v : string) (s : AppState) : AppState :=
  {| db := db s; mockBackendStore := mockBackendStore s;
     isDbLoaded := isDbLoaded s; tables := tables s;
     selectedTable := selectedTable s; tableData := tableData s;
     isLoading := isLoading s; loadingMessage := loadingMessage s;
     cqfBuiltTables := cqfBuiltTables s; cqfConsole := cqfConsole s;
     searchKey := v; cqfOperationLoading := cqfOperationLoading s;
     pending := pending s; downloads := downloads s; alerts := alerts s |}.

Definition set_cqfOperationLoading (v : bool) (s : AppState) : AppState :=
  {| db := db s; mockBackendStore := mockBackendStore s;
     isDbLoaded := isDbLoaded s; tables := tables s;
     selectedTable := selectedTable s; tableData := tableData s;
     isLoading := isLoading s; loadingMessage := loadingMessage s;
     cqfBuiltTables := cqfBuiltTables s; cqfConsole := cqfConsole s;
     searchKey := searchKey s; cqfOperationLoading := v;
     pending := pending s; downloads := downloads s; alerts := alerts s |}.

Definition set_pending (v : list Pending) (s : AppState) : AppState :=
  {| db := db s; mockBackendStore := mockBackendStore s;
     isDbLoaded := isDbLoaded s; tables := tables s;
     selectedTable := selectedTable s; tableData := tableData s;
     isLoading := isLoading s; loadingMessage := loadingMessage s;
     cqfBuiltTables := cqfBuiltTables s; cqfConsole := cqfConsole s;
     searchKey := searchKey s;
     cqfOperationLoading := cqfOperationLoading s; pending := v;
     downloads := downloads s; alerts := alerts s |}.

Definition set_downloads (v : list (string * string)) (s : AppState) : AppState :=
  {| db := db s; mockBackendStore := mockBackendStore s;
     isDbLoaded := isDbLoaded s; tables := tables s;
     selectedTable := selectedTable s; tableData := tableData s;
     isLoading := isLoading s; loadingMessage := loadingMessage s;
     cqfBuiltTables := cqfBuiltTables s; cqfConsole := cqfConsole s;
     searchKey := searchKey s;
     cqfOperationLoading := cqfOperationLoading s; pending := pending s;
     downloads := v; alerts := alerts s |}.

Definition set_alerts (v : list string) (s : AppState) : AppState :=
  {| db := db s; mockBackendStore := mockBackendStore s;
     isDbLoaded := isDbLoaded s; tables := tables s;
     selectedTable := selectedTable s; tableData := tableData s;
     isLoading := isLoading s; loadingMessage := loadingMessage s;
     cqfBuiltTables := cqfBuiltTables s; cqfConsole := cqfConsole s;
     searchKey := searchKey s;
     cqfOperationLoading := cqfOperationLoading s; pending := pending s;
     downloads := downloads s; alerts := v |}.

(** The state of a freshly loaded page. *)
Definition App_init : AppState :=
  {| db := None; mockBackendStore := mockBackendStore_init;
     isDbLoaded := false; tables := []; selectedTable := None;
     tableData := no_TableData; isLoading := false; loadingMessage := "";
     cqfBuiltTables := ∅; cqfConsole := []; searchKey := "";
     cqfOperationLoading := false; pending := []; downloads := [];
     alerts := [] |}.

(** A string is falsy exactly when it is empty; [null] is falsy. *)
Definition truthy (v : option string) : bool :=
  match v with
  | Some text => negb (bool_decide (text = ""))
  | None => false
  end.

(** [isCqfReady] *)
Definition isCqfReady (s : AppState) : bool :=
  match selectedTable s with
  | Some table => bool_decide (name table ∈ cqfBuiltTables s)
  | None => false
  end.

(** [addToConsole(msg)]; [time] is [new Date().toLocaleTimeString()]. *)
Definition addToConsole (time msg : string) (s : AppState) : AppState :=
  set_cqfConsole (("[" +:+ time +:+ "] " +:+ msg) :: cqfConsole s) s.

(** [handleSelectTable(table)] *)
Definition handleSelectTable (table : TableInfo) (s : AppState) : AppState :=
  set_cqfConsole []
    (set_tableData (getTableData (db s) (name table) 100)
       (set_selectedTable (Some table) s)).

(** [handleFileUpload], up to [await file.arrayBuffer()]; [file] is
    [event.target.files?.[0]] with the name of the file and what loading it
    will lead to. *)
Definition handleFileUpload (file : option (string * UploadOutcome))
    (s : AppState) : AppState :=
  match file with
  | None => s
  | Some (file_name, outcome) =>
      let s := set_isLoading true s in
      let s := set_loadingMessage ("Parsing " +:+ file_name +:+ "...") s in
      let s := set_db (resetDatabase (db s)) s in
      let s := set_tables [] s in
      let s := set_selectedTable None s in
      let s := set_cqfBuiltTables ∅ s in
      let s := set_cqfConsole [] s in
      set_pending (pending s ++ [PendingUpload outcome])%list s
  end.

(** The rest of [handleFileUpload]. *)
Definition settle_upload (outcome : UploadOutcome) (s : AppState) : AppState :=
  let failed s :=
    set_alerts
      ("Failed to load database. Please ensure it is a valid SQLite file."
         :: alerts s) s in
  let s :=
    match outcome with
    | LoadFails => failed s
    | TablesFail d => failed (set_db (Some d) s)
    | Loaded d found_tables =>
        let s := set_db (Some d) s in
        let s := set_tables found_tables s in
        let s := set_isDbLoaded true s in
        match found_tables with
        | table :: _ => handleSelectTable table s
        | [] => s
        end
    end in
  set_isLoading false s.

(** [handleDownloadPKs], up to the [setTimeout]. *)
Definition handleDownloadPKs (s : AppState) : AppState :=
  match selectedTable s with
  | None => s
  | Some table =>
      match pkColumn table with
      | Some pk =>
          if truthy (Some pk) then
            let s := set_isLoading true s in
            let s := set_loadingMessage "Extracting Primary Keys..." s in
            set_pending (pending s ++ [PendingDownload table pk])%list s
          else s
      | None => s
      end
  end.

(** The timer callback of [handleDownloadPKs]: the file name and the text
    of the blob offered for download. *)
Definition settle_download (table : TableInfo) (pk : string) (s : AppState)
  : AppState :=
  let keys := getPrimaryKeys (db s) (name table) pk in
  let content := generatePKFileContent keys in
  let s := set_downloads ((name table +:+ "_pks.txt", content) :: downloads s) s in
  set_isLoading false s.

(** [handleBuildCQF], up to [await buildCQF(...)]: the keys are extracted
    before the call is issued. *)
Definition handleBuildCQF (s : AppState) : AppState :=
  match selectedTable s with
  | None => s
  | Some table =>
      match pkColumn table with
      | Some pk =>
          if truthy (Some pk) then
            let s := set_isLoading true s in
            let s := set_loadingMessage "Building CQF in Backend..." s in
            let keys := getPrimaryKeys (db s) (name table) pk in
            set_pending (pending s ++ [PendingBuild (name table) keys])%list s
          else s
      | None => s
      end
  end.

(** [String(error)] for an [Error] object. *)
Definition Error_toString (e : Error) : string :=
  if bool_decide (error_message e = "") then "Error"
  else "Error: " +:+ error_message e.

(** The service call of [handleBuildCQF] and the rest of the handler. *)
Definition settle_build (time : string) (tableName : string)
    (keys : list string) (s : AppState) : AppState :=
  let '(settled, σ) := buildCQF tableName keys (mockBackendStore s) in
  let s := set_mockBackendStore σ s in
  let s :=
    match settled with
    | Fulfilled response =>
        if build_success response then
          let s := set_cqfBuiltTables ({[ tableName ]} ∪ cqfBuiltTables s) s in
          addToConsole time ("[SYSTEM] " +:+ message response) s
        else s
    | Rejected error =>
        addToConsole time
          ("[ERROR] Failed to build CQF: " +:+ Error_toString error) s
    end in
  set_isLoading false s.

(** [performCqfAction(action)], up to the [await]. *)
Definition performCqfAction (action : CqfAction) (s : AppState) : AppState :=
  match selectedTable s with
  | None => s
  | Some table =>
      if bool_decide (searchKey s = "") then s
      else
        let s := set_cqfOperationLoading true s in
        set_pending
          (pending s ++ [PendingAction action (name table) (searchKey s)])%list s
  end.

(** The [catch] clause of [performCqfAction]: the line logged for a call
    that settled, given the line a fulfilled call is reported with. *)
Definition caught {A : Type} (settled : Settled A) (line : A → string)
  : string :=
  match settled with
  | Fulfilled res => line res
  | Rejected error => "[ERROR] " +:+ error_message error
  end.

(** The service call of [performCqfAction] and the rest of the handler. *)
Definition settle_action (time : string) (action : CqfAction)
    (tableName key : string) (s : AppState) : AppState :=
  let '(line, σ) :=
    match action with
    | ActSearch =>
        let '(settled, σ) := searchCQF tableName key (mockBackendStore s) in
        (caught settled
           (λ res, if found res then "Search '" +:+ key +:+ "': FOUND"
                   else "Search '" +:+ key +:+ "': NOT FOUND"), σ)
    | ActInsert =>
        let '(settled, σ) := insertCQF tableName key (mockBackendStore s) in
        (caught settled (λ _, "Insert '" +:+ key +:+ "': SUCCESS"), σ)
    | ActDelete =>
        let '(settled, σ) := deleteCQF tableName key (mockBackendStore s) in
        (caught settled
           (λ res, if success res then "Delete '" +:+ key +:+ "': SUCCESS"
                   else "Delete '" +:+ key +:+ "': FAILED (Not found)"), σ)
    end in
  let s := set_mockBackendStore σ s in
  let s := addToConsole time line s in
  let s := set_cqfOperationLoading false s in
  set_searchKey "" s.

(** What can happen to the page. *)
Inductive UiEvent :=
  | EvUpload (file : option (string * UploadOutcome))
  | EvSelectTable (table : TableInfo)
  | EvDownload
  | EvBuild
  | EvType (text : string)
  | EvAction (action : CqfAction)
  | EvSettle (i : nat) (time : string).

#[global] Instance TableInfo_eq_dec : EqDecision TableInfo.
Proof. solve_decision. Defined.

(** Whether the element the event comes from is on the page: the upload
    input always is, a table button for each listed table, the download and
    build buttons when a table is selected, the key input and the three
    action buttons when moreover the selected table is ready.  A [disabled]
    attribute is not taken into account (the [Button] component decides what
    it does with it); a task can settle when it is pending. *)
Definition possible (s : AppState) (e : UiEvent) : bool :=
  match e with
  | EvUpload _ => true
  | EvSelectTable table => bool_decide (table ∈ tables s)
  | EvDownload | EvBuild => bool_decide (is_Some (selectedTable s))
  | EvType _ | EvAction _ => isCqfReady s
  | EvSettle i _ => bool_decide (i < length (pending s))%nat
  end.

Definition settle (time : string) (task : Pending) (s : AppState) : AppState :=
  match task with
  | PendingUpload outcome => settle_upload outcome s
  | PendingDownload table pk => settle_download table pk s
  | PendingBuild tableName keys => settle_build time tableName keys s
  | PendingAction action tableName key =>
      settle_action time action tableName key s
  end.

Definition ui_step (e : UiEvent) (s : AppState) : AppState :=
  match e with
  | EvUpload file => handleFileUpload file s
  | EvSelectTable table => handleSelectTable table s
  | EvDownload => handleDownloadPKs s
  | EvBuild => handleBuildCQF s
  | EvType text => set_searchKey text s
  | EvAction action => performCqfAction action s
  | EvSettle i time =>
      match pending s !! i with
      | Some task => settle time task (set_pending (delete i (pending s)) s)
      | None => s
      end
  end.

Definition ui_run (events : list UiEvent) (s : AppState) : AppState :=
  foldl (λ s e, ui_step e s) s events.

(** Whether each event of a sequence is possible in the state it meets. *)
Fixpoint all_possible (events : list UiEvent) (s : AppState) : bool :=
  match events with
  | [] => true
  | e :: events => possible s e && all_possible events (ui_step e s)
  end.

(** The states the page can be in. *)
Inductive reachable : AppState → Prop :=
  | reachable_init : reachable App_init
  | reachable_step s e :
      reachable s → possible s e = true → reachable (ui_step e s).

(** The service call an action stands for. *)
Definition action_op (action : CqfAction) (tableName key : string) : Op :=
  match action with
  | ActSearch => Search tableName key
  | ActInsert => Insert tableName key
  | ActDelete => Delete tableName key
  end.

(** The line that truthfully reports an action on a filter holding [set]
    when the call settles. *)
Definition true_line (action : CqfAction) (key : string) (set : gset string)
  : string :=
  match action with
  | ActSearch =>
      if bool_decide (key ∈ set) then "Search '" +:+ key +:+ "': FOUND"
      else "Search '" +:+ key +:+ "': NOT FOUND"
  | ActInsert => "Insert '" +:+ key +:+ "': SUCCESS"
  | ActDelete =>
      if bool_decide (key ∈ set) then "Delete '" +:+ key +:+ "': SUCCESS"
      else "Delete '" +:+ key +:+ "': FAILED (Not found)"
  end.

(** What holds of every state of the page: a table marked as built has a
    filter in the backend store, and so has the table of every pending
    action, whose key is not empty. *)
Definition page_inv (s : AppState) : Prop :=
  (∀ t, t ∈ cqfBuiltTables s → is_Some (mockBackendStore s !! t)) ∧
  (∀ action t k, PendingAction action t k ∈ pending s →
                 is_Some (mockBackendStore s !! t) ∧ k ≠ "").

(** A database with one table of three rows, for examples. *)
Definition demo_db : Database :=
  {| exec := λ _, ExecReturns
       [ {| columns := ["id"];
            values := [[SqlShown "1"]; [SqlShown "2"]; [SqlShown "3"]] |} ] |}.

Definition demo_table : TableInfo :=
  {| name := "users"; rowCount := 3; pkColumn := Some "id";
     ti_columns := ["id"] |}.

(** The page after loading [demo_db], building the filter of its table and
    typing a key. *)
Definition demo_events : list UiEvent :=
  [ EvUpload (Some ("demo.db", Loaded demo_db [demo_table]));
    EvSettle 0 "10:00:00";
    EvBuild;
    EvSettle 0 "10:00:02";
    EvType "2" ].

(** ** Equations of the operations *)

Lemma buildCQF_eq t keys (σ : Store) :
  buildCQF t keys σ =
    (Fulfilled {| build_success := true;
                  message := build_message t (length keys) |},
     <[ t := Set_new keys ]> σ).
Proof. reflexivity. Qed.

Lemma searchCQF_built t key (σ : Store) set :
  σ !! t = Some set →
  searchCQF t key σ = (Fulfilled {| found := Set_has key set |}, σ).
Proof.
  intros H. unfold searchCQF, mbind, Async_bind, delay, Map_get; simpl.
  by rewrite H.
Qed.

Lemma searchCQF_unbuilt t key (σ : Store) :
  σ !! t = None → searchCQF t key σ = (Rejected not_built, σ).
Proof.
  intros H. unfold searchCQF, mbind, Async_bind, delay, Map_get; simpl.
  by rewrite H.
Qed.

Lemma insertCQF_built t key (σ : Store) set :
  σ !! t = Some set →
  insertCQF t key σ =
    (Fulfilled {| success := true |}, <[ t := Set_add key set ]> σ).
Proof.
  intros H. unfold insertCQF, mbind, Async_bind, delay, Map_get; simpl.
  by rewrite H.
Qed.

Lemma insertCQF_unbuilt t key (σ : Store) :
  σ !! t = None → insertCQF t key σ = (Rejected not_built, σ).
Proof.
  intros H. unfold insertCQF, mbind, Async_bind, delay, Map_get; simpl.
  by rewrite H.
Qed.

Lemma deleteCQF_built t key (σ : Store) set :
  σ !! t = Some set →
  deleteCQF t key σ =
    (Fulfilled {| success := bool_decide (key ∈ set) |},
     <[ t := set ∖ {[ key ]} ]> σ).
Proof.
  intros H. unfold deleteCQF, mbind, Async_bind, delay, Map_get; simpl.
  by rewrite H.
Qed.

Lemma deleteCQF_unbuilt t key (σ : Store) :
  σ !! t = None → deleteCQF t key σ = (Rejected not_built, σ).
Proof.
  intros H. unfold deleteCQF, mbind, Async_bind, delay, Map_get; simpl.
  by rewrite H.
Qed.

(** ** The Set constructor *)

Lemma Set_new_foldl (keys : list string) (acc : gset string) :
  foldl (λ set key, Set_add key set) acc keys = list_to_set keys ∪ acc.
Proof.
  revert acc. induction keys as [|k keys IH]; intros acc; simpl.
  - set_solver.
  - rewrite IH. unfold Set_add. set_solver.
Qed.

Lemma Set_new_list_to_set (keys : list string) :
  Set_new keys = list_to_set keys.
Proof. unfold Set_new. rewrite Set_new_foldl. set_solver. Qed.

Lemma elem_of_Set_new (keys : list string) (k : string) :
  k ∈ Set_new keys ↔ k ∈ keys.
Proof. rewrite Set_new_list_to_set. apply elem_of_list_to_set. Qed.

Lemma Set_size_new (keys : list string) :
  Set_size (Set_new keys) = distinct_count keys.
Proof.
  unfold Set_size, distinct_count. rewrite Set_new_list_to_set.
  rewrite <- (size_list_to_set (C := gset string) (remove_dups keys))
    by apply NoDup_remove_dups.
  f_equal. apply set_eq. intros x.
  rewrite !elem_of_list_to_set. by rewrite elem_of_remove_dups.
Qed.

Example build_message_two :
  build_message "t" 2 = "CQF built successfully for t with 2 keys.".
Proof. reflexivity. Qed.

(** ** One call on the store *)

Lemma step_Build t keys (σ : Store) :
  step (Build t keys) σ = <[ t := Set_new keys ]> σ.
Proof. reflexivity. Qed.

Lemma step_Search t key (σ : Store) : step (Search t key) σ = σ.
Proof.
  unfold step, call, mbind, Async_bind.
  destruct (σ !! t) as [set|] eqn:H.
  - by rewrite (searchCQF_built _ _ _ _ H).
  - by rewrite (searchCQF_unbuilt _ _ _ H).
Qed.

Lemma step_Insert t key (σ : Store) :
  step (Insert t key) σ =
    match σ !! t with
    | Some set => <[ t := Set_add key set ]> σ
    | None => σ
    end.
Proof.
  unfold step, call, mbind, Async_bind.
  destruct (σ !! t) as [set|] eqn:H.
  - by rewrite (insertCQF_built _ _ _ _ H).
  - by rewrite (insertCQF_unbuilt _ _ _ H).
Qed.

Lemma step_Delete t key (σ : Store) :
  step (Delete t key) σ =
    match σ !! t with
    | Some set => <[ t := set ∖ {[ key ]} ]> σ
    | None => σ
    end.
Proof.
  unfold step, call, mbind, Async_bind.
  destruct (σ !! t) as [set|] eqn:H.
  - by rewrite (deleteCQF_built _ _ _ _ H).
  - by rewrite (deleteCQF_unbuilt _ _ _ H).
Qed.

Lemma run_app ops1 ops2 (σ : Store) :
  run (ops1 ++ ops2) σ = run ops2 (run ops1 σ).
Proof. unfold run. apply foldl_app. Qed.

Lemma run_cons o ops (σ : Store) : run (o :: ops) σ = run ops (step o σ).
Proof. reflexivity. Qed.

(** A call that neither rebuilds table [t] nor deletes [k] from it keeps
    [k] in the filter of [t]. *)
Lemma step_keeps_member o t k (σ : Store) set :
  σ !! t = Some set → k ∈ set →
  is_build_of t o = false → is_delete_of t k o = false →
  ∃ set', step o σ !! t = Some set' ∧ k ∈ set'.
Proof.
  intros Hσ Hk Hb Hd. destruct o as [t' keys|t' key|t' key|t' key]; simpl in *.
  - apply bool_decide_eq_false in Hb.
    rewrite step_Build, lookup_insert_ne by done. eauto.
  - rewrite step_Search. eauto.
  - rewrite step_Insert. destruct (decide (t' = t)) as [->|Hne].
    + rewrite Hσ, lookup_insert_eq. eexists; split; [done|].
      unfold Set_add. set_solver.
    + destruct (σ !! t'); [rewrite lookup_insert_ne by done|]; eauto.
  - rewrite step_Delete. destruct (decide (t' = t)) as [->|Hne].
    + rewrite Hσ, lookup_insert_eq. eexists; split; [done|].
      rewrite bool_decide_eq_true_2 in Hd by done. simpl in Hd.
      apply bool_decide_eq_false in Hd. set_solver.
    + destruct (σ !! t'); [rewrite lookup_insert_ne by done|]; eauto.
Qed.

Lemma run_keeps_member ops t k : ∀ (σ : Store) set,
  σ !! t = Some set → k ∈ set →
  forallb (λ o, negb (is_build_of t o)) ops = true →
  forallb (λ o, negb (is_delete_of t k o)) ops = true →
  ∃ set', run ops σ !! t = Some set' ∧ k ∈ set'.
Proof.
  induction ops as [|o ops IH]; intros σ set Hσ Hk Hb Hd; simpl in Hb, Hd.
  - eauto.
  - apply andb_prop in Hb as [Hb1 Hb2]. apply andb_prop in Hd as [Hd1 Hd2].
    apply negb_true_iff in Hb1, Hd1.
    destruct (step_keeps_member o t k σ set Hσ Hk Hb1 Hd1) as (set' & H1 & H2).
    rewrite run_cons. by apply (IH _ set').
Qed.

(** A table stays built until it is rebuilt: no call removes an entry. *)
Lemma step_keeps_built o t (σ : Store) :
  is_Some (σ !! t) → is_Some (step o σ !! t).
Proof.
  intros [set Hσ]. destruct o as [t' keys|t' key|t' key|t' key].
  - rewrite step_Build. destruct (decide (t' = t)) as [->|Hne].
    + rewrite lookup_insert_eq. eauto.
    + rewrite lookup_insert_ne by done. eauto.
  - rewrite step_Search. eauto.
  - rewrite step_Insert. destruct (σ !! t') eqn:E; [|eauto].
    destruct (decide (t' = t)) as [->|Hne].
    + rewrite lookup_insert_eq. eauto.
    + rewrite lookup_insert_ne by done. eauto.
  - rewrite step_Delete. destruct (σ !! t') eqn:E; [|eauto].
    destruct (decide (t' = t)) as [->|Hne].
    + rewrite lookup_insert_eq. eauto.
    + rewrite lookup_insert_ne by done. eauto.
Qed.

Lemma run_keeps_built ops t : ∀ (σ : Store),
  is_Some (σ !! t) → is_Some (run ops σ !! t).
Proof.
  induction ops as [|o ops IH]; intros σ H; [done|].
  rewrite run_cons. by apply IH, step_keeps_built.
Qed.

(** A table on which no build was called stays absent. *)
Lemma step_keeps_absent o t (σ : Store) :
  σ !! t = None → is_build_of t o = false → step o σ !! t = None.
Proof.
  intros Hσ Hb. destruct o as [t' keys|t' key|t' key|t' key]; simpl in *.
  - apply bool_decide_eq_false in Hb.
    by rewrite step_Build, lookup_insert_ne.
  - by rewrite step_Search.
  - rewrite step_Insert. destruct (σ !! t') eqn:E; [|done].
    rewrite lookup_insert_ne; [done|]. intros ->. congruence.
  - rewrite step_Delete. destruct (σ !! t') eqn:E; [|done].
    rewrite lookup_insert_ne; [done|]. intros ->. congruence.
Qed.

Lemma run_never_built ops t : ∀ (σ : Store),
  σ !! t = None →
  forallb (λ o, negb (is_build_of t o)) ops = true →
  run ops σ !! t = None.
Proof.
  induction ops as [|o ops IH]; intros σ Hσ Hb; simpl in Hb; [done|].
  apply andb_prop in Hb as [Hb1 Hb2]. apply negb_true_iff in Hb1.
  rewrite run_cons. apply IH; [|done]. by apply step_keeps_absent.
Qed.

(** ** Strings and [Array.prototype.join] *)

Lemma append_cons a (s1 s2 : string) :
  String a s1 +:+ s2 = String a (s1 +:+ s2).
Proof. reflexivity. Qed.

Lemma append_empty_r (s : string) : s +:+ "" = s.
Proof. induction s as [|a s IH]; [done|]. by rewrite append_cons, IH. Qed.

Lemma append_assoc (s1 s2 s3 : string) :
  (s1 +:+ s2) +:+ s3 = s1 +:+ (s2 +:+ s3).
Proof.
  induction s1 as [|a s1 IH]; [done|]. by rewrite !append_cons, IH.
Qed.

Lemma length_append (s1 s2 : string) :
  String.length (s1 +:+ s2) = String.length s1 + String.length s2.
Proof.
  induction s1 as [|a s1 IH]; [done|]. rewrite append_cons. simpl.
  by rewrite IH.
Qed.

Lemma Array_join_from_succ sep elems : ∀ R k,
  Array_join_from sep R (S k) elems = R +:+ join_rest sep elems.
Proof.
  induction elems as [|e rest IH]; intros R k; cbn [Array_join_from join_rest foldr].
  - by rewrite append_empty_r.
  - rewrite decide_True by lia. rewrite IH. by rewrite !append_assoc.
Qed.

Lemma Array_join_cons sep e rest :
  Array_join sep (e :: rest) = e +:+ join_rest sep rest.
Proof.
  unfold Array_join. cbn [Array_join_from]. rewrite decide_False by lia.
  apply Array_join_from_succ.
Qed.

Lemma concat_cons sep e rest :
  String.concat sep (e :: rest) = e +:+ join_rest sep rest.
Proof.
  revert e. induction rest as [|e' rest IH]; intros e.
  - simpl. by rewrite append_empty_r.
  - change (String.concat sep (e :: e' :: rest))
      with (e +:+ sep +:+ String.concat sep (e' :: rest)).
    by rewrite IH.
Qed.

Lemma join_rest_app sep l1 l2 :
  join_rest sep (l1 ++ l2) = join_rest sep l1 +:+ join_rest sep l2.
Proof.
  induction l1 as [|e l1 IH]; [done|]. simpl.
  by rewrite IH, !append_assoc.
Qed.

Lemma total_length_cons e (rest : list string) :
  total_length (e :: rest) = String.length e + total_length rest.
Proof. reflexivity. Qed.

Lemma length_join_rest sep elems :
  String.length (join_rest sep elems) =
    total_length elems + length elems * String.length sep.
Proof.
  induction elems as [|e rest IH]; [done|].
  rewrite total_length_cons.
  change (join_rest sep (e :: rest)) with (sep +:+ e +:+ join_rest sep rest).
  rewrite !length_append, IH. simpl. lia.
Qed.

(** ** Access to a table that was never built *)

(** C3. On a name for which no build was ever called (no entry in the
    store, and none created by the calls made since), [searchCQF],
    [insertCQF] and [deleteCQF] each settle to a rejection carrying the
    "Filter not built for this table" error and leave the store as it is:
    they return, and never with a fulfilled result. *)
Theorem unbuilt_access_rejected (σ0 : Store) (ops : list Op) (t key : string) :
  σ0 !! t = None →
  forallb (λ o, negb (is_build_of t o)) ops = true →
  searchCQF t key (run ops σ0) = (Rejected not_built, run ops σ0) ∧
  insertCQF t key (run ops σ0) = (Rejected not_built, run ops σ0) ∧
  deleteCQF t key (run ops σ0) = (Rejected not_built, run ops σ0).
Proof.
  intros H0 Hops.
  pose proof (run_never_built ops t σ0 H0 Hops) as Habs.
  split_and!.
  - by apply searchCQF_unbuilt.
  - by apply insertCQF_unbuilt.
  - by apply deleteCQF_unbuilt.
Qed.

Lemma unbuilt_access_rejected_witness :
  let ops := [Build "users" ["1"; "2"; "3"]; Insert "orders" "x";
              Delete "users" "2"] in
  searchCQF "orders" "x" (run ops ∅) = (Rejected not_built, run ops ∅) ∧
  insertCQF "orders" "x" (run ops ∅) = (Rejected not_built, run ops ∅) ∧
  deleteCQF "orders" "x" (run ops ∅) = (Rejected not_built, run ops ∅).
Proof.
  intros ops. apply (unbuilt_access_rejected ∅ ops "orders" "x").
  - reflexivity.
  - reflexivity.
Defined.

(** ** Build *)

(** C7. Building table [A] leaves whatever is stored under a different
    name [B] as it was: the entry exists afterwards exactly if it existed
    before, with the same members, and every search on [B] answers the
    same. *)
Theorem build_isolation (σ : Store) (A B : string) (keys : list string) :
  A ≠ B →
  (buildCQF A keys σ).2 !! B = σ !! B ∧
  ∀ k, (searchCQF B k (buildCQF A keys σ).2).1 = (searchCQF B k σ).1.
Proof.
  intros Hne. rewrite buildCQF_eq. simpl.
  assert ((<[A:=Set_new keys]> σ : Store) !! B = σ !! B) as E
    by by apply lookup_insert_ne.
  split; [done|]. intros k.
  destruct (σ !! B) as [set|] eqn:HB.
  - by rewrite (searchCQF_built _ _ _ _ E), (searchCQF_built _ _ _ _ HB).
  - by rewrite (searchCQF_unbuilt _ _ _ E), (searchCQF_unbuilt _ _ _ HB).
Qed.

Lemma build_isolation_witness :
  (buildCQF "orders" ["7"; "2"] users_store).2 !! "users"
    = users_store !! "users" ∧
  ∀ k, (searchCQF "users" k (buildCQF "orders" ["7"; "2"] users_store).2).1
       = (searchCQF "users" k users_store).1.
Proof.
  apply (build_isolation users_store "orders" "users" ["7"; "2"]).
  discriminate.
Defined.

(** C5. The entry left under a name by [buildCQF] depends on the keys
    alone: whatever the store held before (an earlier build, with inserts
    and deletes on it, or nothing), the response is the same, the stored
    set is the set of the keys, a search for [k] answers whether [k] is
    among the keys, and building a second time with the same keys changes
    nothing. *)
Theorem build_replaces (σ1 σ2 : Store) (t : string) (keys : list string) :
  (buildCQF t keys σ1).1 = (buildCQF t keys σ2).1 ∧
  (buildCQF t keys σ1).2 !! t = Some (Set_new keys) ∧
  (buildCQF t keys σ2).2 !! t = (buildCQF t keys σ1).2 !! t ∧
  buildCQF t keys (buildCQF t keys σ1).2 = buildCQF t keys σ1 ∧
  (∀ k, (searchCQF t k (buildCQF t keys σ1).2).1
        = Fulfilled {| found := bool_decide (k ∈ keys) |}) ∧
  (∀ k, (searchCQF t k (buildCQF t keys σ2).2).1
        = (searchCQF t k (buildCQF t keys σ1).2).1).
Proof.
  rewrite !buildCQF_eq. simpl.
  assert (∀ (σ : Store) k,
            (searchCQF t k (<[t:=Set_new keys]> σ)).1
            = Fulfilled {| found := bool_decide (k ∈ keys) |}) as Hs.
  { intros σ k.
    rewrite (searchCQF_built t k _ (Set_new keys)) by apply lookup_insert_eq.
    simpl. unfold Set_has. do 2 f_equal.
    apply bool_decide_ext, elem_of_Set_new. }
  split_and!.
  - done.
  - apply lookup_insert_eq.
  - by rewrite !lookup_insert_eq.
  - by rewrite insert_insert_eq.
  - apply Hs.
  - intros k. by rewrite !Hs.
Qed.

(** ** Insert *)

(** C10. On a built table [insertCQF] always answers [success = true];
    the stored set becomes the old one with the key added, which is the
    old one itself when the key was already a member. *)
Theorem insert_always_succeeds (σ : Store) (t key : string) (set : gset string) :
  σ !! t = Some set →
  insertCQF t key σ =
    (Fulfilled {| success := true |}, <[ t := {[ key ]} ∪ set ]> σ) ∧
  (key ∈ set → (insertCQF t key σ).2 = σ).
Proof.
  intros H. rewrite (insertCQF_built _ _ _ _ H). split; [done|].
  intros Hin. simpl. apply insert_id. rewrite H. f_equal.
  unfold Set_add. set_solver.
Qed.

Lemma insert_always_succeeds_witness :
  insertCQF "users" "2" users_store =
    (Fulfilled {| success := true |},
     <[ "users" := {[ "2" ]} ∪ Set_new ["1"; "2"; "3"] ]> users_store) ∧
  ("2" ∈ Set_new ["1"; "2"; "3"] → (insertCQF "users" "2" users_store).2 = users_store).
Proof.
  apply (insert_always_succeeds users_store "users" "2" (Set_new ["1"; "2"; "3"])).
  reflexivity.
Defined.

(** ** Delete *)

(** C4. On a built table [deleteCQF] is fulfilled with [success] equal to
    whether the key was a member: [true] for a member, which is removed,
    and [false] for an absent key, with the store untouched; this is a
    fulfilled result, not a rejection.  After the call the key is not
    found, and a second delete of the same key answers [false]. *)
Theorem delete_reports_membership (σ : Store) (t k : string) (set : gset string) :
  σ !! t = Some set →
  deleteCQF t k σ =
    (Fulfilled {| success := bool_decide (k ∈ set) |},
     <[ t := set ∖ {[ k ]} ]> σ) ∧
  (k ∈ set → (deleteCQF t k σ).1 = Fulfilled {| success := true |}) ∧
  (k ∉ set → (deleteCQF t k σ).1 = Fulfilled {| success := false |}
             ∧ (deleteCQF t k σ).2 = σ) ∧
  (searchCQF t k (deleteCQF t k σ).2).1 = Fulfilled {| found := false |} ∧
  (deleteCQF t k (deleteCQF t k σ).2).1 = Fulfilled {| success := false |}.
Proof.
  intros H. rewrite (deleteCQF_built _ _ _ _ H). simpl.
  assert ((<[t:=set ∖ {[k]}]> σ : Store) !! t = Some (set ∖ {[k]})) as E
    by apply lookup_insert_eq.
  assert (k ∉ set ∖ {[k]}) as Hout by set_solver.
  split_and!.
  - done.
  - intros Hin. by rewrite bool_decide_eq_true_2.
  - intros Hnin. rewrite bool_decide_eq_false_2 by done. split; [done|].
    apply insert_id. rewrite H. f_equal. set_solver.
  - rewrite (searchCQF_built _ _ _ _ E). simpl. unfold Set_has.
    by rewrite bool_decide_eq_false_2.
  - rewrite (deleteCQF_built _ _ _ _ E). simpl.
    by rewrite bool_decide_eq_false_2.
Qed.

Lemma delete_reports_membership_witness :
  (deleteCQF "users" "2" users_store).1 = Fulfilled {| success := true |} ∧
  (deleteCQF "users" "2" (deleteCQF "users" "2" users_store).2).1
    = Fulfilled {| success := false |}.
Proof.
  destruct (delete_reports_membership users_store "users" "2"
              (Set_new ["1"; "2"; "3"])) as (_ & Hin & _ & _ & Htwice).
  - reflexivity.
  - split; [|exact Htwice]. apply Hin.
    apply (bool_decide_unpack ("2" ∈ Set_new ["1"; "2"; "3"])).
    vm_compute. exact I.
Defined.

(** The end-to-end scenario of the contract on users. *)
Example users_scenario :
  let r0 := buildCQF "users" ["1"; "2"; "3"] mockBackendStore_init in
  let r1 := searchCQF "users" "2" r0.2 in
  let r2 := deleteCQF "users" "2" r1.2 in
  let r3 := searchCQF "users" "2" r2.2 in
  let r4 := deleteCQF "users" "2" r3.2 in
  r0.2 !! "users" = Some ({[ "1"; "2"; "3" ]} : gset string) ∧
  r1.1 = Fulfilled {| found := true |} ∧
  r2.1 = Fulfilled {| success := true |} ∧
  r3.1 = Fulfilled {| found := false |} ∧
  r4.1 = Fulfilled {| success := false |} ∧
  (searchCQF "orders" "x" r4.2).1 = Rejected not_built.
Proof. vm_compute. repeat split. Qed.

(** C6. On a built table, inserting [k], deleting [k] and then searching
    for [k] answers [found = false]; the insert and the delete both answer
    [success = true].  The stored set is exact, so this holds whether or
    not [k] was a member before the insert. *)
Theorem insert_delete_roundtrip (σ : Store) (t k : string) (set : gset string) :
  σ !! t = Some set →
  (insertCQF t k σ).1 = Fulfilled {| success := true |} ∧
  (deleteCQF t k (insertCQF t k σ).2).1 = Fulfilled {| success := true |} ∧
  (searchCQF t k (deleteCQF t k (insertCQF t k σ).2).2).1
    = Fulfilled {| found := false |}.
Proof.
  intros H. rewrite (insertCQF_built _ _ _ _ H). simpl.
  assert ((<[t:=Set_add k set]> σ : Store) !! t = Some (Set_add k set)) as E
    by apply lookup_insert_eq.
  rewrite (deleteCQF_built _ _ _ _ E). simpl.
  split_and!; [done| |].
  - rewrite bool_decide_eq_true_2; [done|]. unfold Set_add. set_solver.
  - rewrite (searchCQF_built t k _ (Set_add k set ∖ {[k]}))
      by (rewrite insert_insert_eq; apply lookup_insert_eq).
    simpl. unfold Set_has. rewrite bool_decide_eq_false_2; [done|].
    set_solver.
Qed.

Lemma insert_delete_roundtrip_witness :
  (searchCQF "users" "2"
     (deleteCQF "users" "2" (insertCQF "users" "2" users_store).2).2).1
    = Fulfilled {| found := false |}.
Proof.
  apply (insert_delete_roundtrip users_store "users" "2" (Set_new ["1"; "2"; "3"])).
  reflexivity.
Defined.

(** ** Failed calls *)

(** C8. A call that settles to a rejection leaves the whole store exactly
    as it found it, so every table built before is still there with the
    same members.  The only rejection is the "not built" one of search,
    insert and delete; [buildCQF] is never rejected. *)
Theorem failed_call_leaves_store (o : Op) (σ : Store) (e : Error) :
  (call o σ).1 = Rejected e →
  (call o σ).2 = σ ∧ e = not_built ∧ ∀ t keys, o ≠ Build t keys.
Proof.
  intros Hrej.
  destruct o as [t keys|t key|t key|t key];
    unfold call, mbind, Async_bind in *.
  - rewrite buildCQF_eq in Hrej. discriminate.
  - destruct (σ !! t) as [set|] eqn:H.
    + rewrite (searchCQF_built _ _ _ _ H) in Hrej. discriminate.
    + rewrite (searchCQF_unbuilt _ _ _ H) in *. simpl in *.
      by simplify_eq.
  - destruct (σ !! t) as [set|] eqn:H.
    + rewrite (insertCQF_built _ _ _ _ H) in Hrej. discriminate.
    + rewrite (insertCQF_unbuilt _ _ _ H) in *. simpl in *.
      by simplify_eq.
  - destruct (σ !! t) as [set|] eqn:H.
    + rewrite (deleteCQF_built _ _ _ _ H) in Hrej. discriminate.
    + rewrite (deleteCQF_unbuilt _ _ _ H) in *. simpl in *.
      by simplify_eq.
Qed.

Lemma failed_call_leaves_store_witness :
  (call (Insert "orders" "x") users_store).1 = Rejected not_built ∧
  (call (Insert "orders" "x") users_store).2 = users_store.
Proof.
  split; [reflexivity|].
  apply (failed_call_leaves_store (Insert "orders" "x") users_store not_built).
  reflexivity.
Defined.

(** ** No false negatives *)

(** C1. Let the filter of [t] be built from [keys] and let any calls
    follow that do not build [t] again (a rebuild replaces the filter
    wholesale).  If [k] is among [keys] and no later call deletes
    [k] from [t], or if some later call inserts [k] into [t] and no call
    after that one deletes it, then searching [t] for [k] is fulfilled
    with [found = true]. *)
Theorem no_false_negatives (σ0 : Store) (t : string) (keys : list string)
    (k : string) (ops : list Op) :
  forallb (λ o, negb (is_build_of t o)) ops = true →
  (k ∈ keys ∧ forallb (λ o, negb (is_delete_of t k o)) ops = true) ∨
  (∃ pre post, ops = (pre ++ Insert t k :: post)%list ∧
               forallb (λ o, negb (is_delete_of t k o)) post = true) →
  searchCQF t k (run (Build t keys :: ops) σ0)
    = (Fulfilled {| found := true |}, run (Build t keys :: ops) σ0).
Proof.
  intros Hb Hadd. rewrite run_cons, step_Build.
  assert ((<[t:=Set_new keys]> σ0 : Store) !! t = Some (Set_new keys)) as E
    by apply lookup_insert_eq.
  assert (∃ set, run ops (<[t:=Set_new keys]> σ0) !! t = Some set ∧ k ∈ set)
    as (set & Hset & Hk).
  { destruct Hadd as [[Hin Hd]|(pre & post & -> & Hd)].
    - apply (run_keeps_member ops t k _ (Set_new keys)); try done.
      by apply elem_of_Set_new.
    - rewrite forallb_app in Hb. apply andb_prop in Hb as [Hb1 Hb2].
      simpl in Hb2.
      rewrite run_app, run_cons.
      destruct (run_keeps_built pre t (<[t:=Set_new keys]> σ0)) as [s1 Hs1];
        [by eexists|].
      apply (run_keeps_member post t k _ (Set_add k s1)); try done.
      + by rewrite step_Insert, Hs1, lookup_insert_eq.
      + unfold Set_add. set_solver. }
  rewrite (searchCQF_built _ _ _ _ Hset). unfold Set_has.
  by rewrite bool_decide_eq_true_2.
Qed.

Lemma no_false_negatives_witness :
  (searchCQF "users" "3"
     (run [Build "users" ["1"; "2"; "3"]; Delete "users" "2"; Insert "orders" "3"]
          ∅)).1 = Fulfilled {| found := true |} ∧
  (searchCQF "users" "9"
     (run [Build "users" ["1"; "2"; "3"]; Delete "users" "9"; Insert "users" "9";
           Delete "users" "1"] ∅)).1 = Fulfilled {| found := true |}.
Proof.
  split.
  - rewrite (no_false_negatives ∅ "users" ["1"; "2"; "3"] "3"
               [Delete "users" "2"; Insert "orders" "3"]).
    + reflexivity.
    + reflexivity.
    + left. split; [|reflexivity].
      apply (bool_decide_unpack ("3" ∈ ["1"; "2"; "3"])). vm_compute. exact I.
  - rewrite (no_false_negatives ∅ "users" ["1"; "2"; "3"] "9"
               [Delete "users" "9"; Insert "users" "9"; Delete "users" "1"]).
    + reflexivity.
    + reflexivity.
    + right. exists [Delete "users" "9"], [Delete "users" "1"].
      split; reflexivity.
Defined.

(** ** The count reported by build *)

Lemma distinct_count_le (keys : list string) :
  (distinct_count keys ≤ length keys)%nat.
Proof.
  unfold distinct_count. induction keys as [|x l IH]; simpl; [done|].
  destruct (decide_rel elem_of x l); simpl; lia.
Qed.

Lemma distinct_count_NoDup (keys : list string) :
  distinct_count keys = length keys ↔ NoDup keys.
Proof.
  unfold distinct_count. induction keys as [|x l IH]; simpl.
  - split; [constructor|done].
  - rewrite NoDup_cons. pose proof (distinct_count_le l) as Hle.
    unfold distinct_count in Hle.
    destruct (decide_rel elem_of x l) as [Hin|Hnin]; simpl.
    + split; [lia|]. by intros [? _].
    + split.
      * intros Heq. split; [done|]. apply IH. lia.
      * intros [_ Hnd]. apply IH in Hnd. lia.
Qed.

(** C2, as stated, fails: for the keys ["a"; "a"] the number of distinct
    keys is 1, while the response of [buildCQF] reports 2. *)
Lemma build_reports_distinct_count_counterexample :
  distinct_count ["a"; "a"] = 1 ∧
  (buildCQF "t" ["a"; "a"] ∅).1
    = Fulfilled {| build_success := true;
                   message := "CQF built successfully for t with 2 keys." |} ∧
  (buildCQF "t" ["a"; "a"] ∅).1
    ≠ Fulfilled {| build_success := true;
                   message := build_message "t" (distinct_count ["a"; "a"]) |}.
Proof. split_and!; [reflexivity|reflexivity|discriminate]. Qed.

(** C2, amended. [buildCQF] is always fulfilled with [success = true].
    The set it stores under the name holds exactly the supplied keys and
    its size is the number of distinct keys (duplicates collapse); the
    count in the response message is the length of the key array, which is
    at least the number of distinct keys and equals it exactly when no key
    is repeated.  For the empty array the stored set is empty and the
    reported count is 0. *)
Theorem build_counts (σ : Store) (t : string) (keys : list string) :
  (buildCQF t keys σ).1
    = Fulfilled {| build_success := true;
                   message := build_message t (length keys) |} ∧
  (buildCQF t keys σ).2 !! t = Some (Set_new keys) ∧
  (∀ k, k ∈ Set_new keys ↔ k ∈ keys) ∧
  Set_size (Set_new keys) = distinct_count keys ∧
  (distinct_count keys ≤ length keys)%nat ∧
  (distinct_count keys = length keys ↔ NoDup keys) ∧
  buildCQF t [] σ
    = (Fulfilled {| build_success := true; message := build_message t 0 |},
       <[ t := ∅ ]> σ) ∧
  Set_size (Set_new []) = 0.
Proof.
  split_and!.
  - done.
  - rewrite buildCQF_eq. apply lookup_insert_eq.
  - intros k. apply elem_of_Set_new.
  - apply Set_size_new.
  - apply distinct_count_le.
  - apply distinct_count_NoDup.
  - done.
  - done.
Qed.

(** ** The exported key file *)

(** C9. The file content is the keys joined with the one-character string
    LF: it is [String.concat] of the keys with that separator; it is empty
    for no key and the key itself for one key; it starts with the first
    key (no header), ends with the last key (no newline is appended after
    it), and has no character besides the keys and one separator between
    neighbours. *)
Theorem pk_file_content_is_join (keys : list string) (k0 k : string) :
  generatePKFileContent keys = String.concat LF keys ∧
  String.length LF = 1 ∧
  generatePKFileContent [] = "" ∧
  generatePKFileContent [k] = k ∧
  generatePKFileContent (k0 :: keys)
    = k0 +:+ String.concat "" ((λ e, LF +:+ e) <$> keys) ∧
  generatePKFileContent ((k0 :: keys) ++ [k])%list
    = generatePKFileContent (k0 :: keys) +:+ LF +:+ k ∧
  String.length (generatePKFileContent (k0 :: keys))
    = total_length (k0 :: keys) + length keys.
Proof.
  unfold generatePKFileContent. split_and!.
  - destruct keys as [|e rest]; [done|].
    by rewrite Array_join_cons, concat_cons.
  - done.
  - done.
  - done.
  - rewrite Array_join_cons. f_equal.
    induction keys as [|e rest IH]; [done|].
    cbn [fmap list_fmap]. rewrite concat_cons.
    change (join_rest LF (e :: rest)) with (LF +:+ e +:+ join_rest LF rest).
    rewrite IH, append_assoc. f_equal. f_equal.
    destruct rest as [|e' rest]; [done|].
    cbn [fmap list_fmap]. rewrite concat_cons. done.
  - change ((k0 :: keys) ++ [k])%list with (k0 :: (keys ++ [k]))%list.
    rewrite !Array_join_cons, join_rest_app, append_assoc.
    simpl. by rewrite append_empty_r.
  - rewrite Array_join_cons, length_append, length_join_rest.
    rewrite total_length_cons. change (String.length LF) with 1. lia.
Qed.

(** * Further properties of the service *)

(** ** What a search answers after any sequence of calls *)

Lemma step_presence o t k (σ : Store) set :
  σ !! t = Some set →
  ∃ set', step o σ !! t = Some set' ∧
          bool_decide (k ∈ set') = presence_after t k o (bool_decide (k ∈ set)).
Proof.
  intros Hσ. destruct o as [t' keys|t' key|t' key|t' key]; simpl.
  - rewrite step_Build. destruct (decide (t' = t)) as [->|Ht].
    + rewrite bool_decide_eq_true_2 by done.
      rewrite lookup_insert_eq. eexists; split; [done|].
      apply bool_decide_ext, elem_of_Set_new.
    + rewrite bool_decide_eq_false_2 by done.
      rewrite lookup_insert_ne by done. eauto.
  - rewrite step_Search. eauto.
  - rewrite step_Insert. destruct (decide (t' = t)) as [->|Ht].
    + rewrite (bool_decide_eq_true_2 (t = t)) by done.
      rewrite Hσ, lookup_insert_eq. eexists; split; [done|].
      unfold Set_add. destruct (decide (key = k)) as [->|Hk].
      * rewrite (bool_decide_eq_true_2 (k = k)) by done. simpl.
        apply bool_decide_eq_true_2. set_solver.
      * rewrite (bool_decide_eq_false_2 (key = k)) by done. simpl.
        apply bool_decide_ext. set_solver.
    + rewrite (bool_decide_eq_false_2 (t' = t)) by done. simpl.
      destruct (σ !! t'); [rewrite lookup_insert_ne by done|]; eauto.
  - rewrite step_Delete. destruct (decide (t' = t)) as [->|Ht].
    + rewrite (bool_decide_eq_true_2 (t = t)) by done.
      rewrite Hσ, lookup_insert_eq. eexists; split; [done|].
      destruct (decide (key = k)) as [->|Hk].
      * rewrite (bool_decide_eq_true_2 (k = k)) by done. simpl.
        apply bool_decide_eq_false_2. set_solver.
      * rewrite (bool_decide_eq_false_2 (key = k)) by done. simpl.
        apply bool_decide_ext. set_solver.
    + rewrite (bool_decide_eq_false_2 (t' = t)) by done. simpl.
      destruct (σ !! t'); [rewrite lookup_insert_ne by done|]; eauto.
Qed.

Lemma run_presence ops t k : ∀ (σ : Store) set,
  σ !! t = Some set →
  ∃ set', run ops σ !! t = Some set' ∧
          bool_decide (k ∈ set')
          = presence_after_all t k ops (bool_decide (k ∈ set)).
Proof.
  induction ops as [|o ops IH]; intros σ set Hσ.
  - eauto.
  - destruct (step_presence o t k σ set Hσ) as (s1 & H1 & E1).
    destruct (IH _ _ H1) as (s2 & H2 & E2).
    exists s2. rewrite run_cons. split; [done|].
    rewrite E2, E1. reflexivity.
Qed.

(** X1. On a built table the answer of a search after any sequence of calls
    (rebuilds included) is decided by the last call that concerned the key:
    found exactly if that was an insert of the key or a build whose keys
    contain it, not found if it was a delete of the key or a build without
    it, and as before the sequence if there was no such call.  The filter
    has neither false negatives nor false positives. *)
Theorem search_answers_last_write (σ : Store) (t k : string) (set : gset string)
    (ops : list Op) :
  σ !! t = Some set →
  searchCQF t k (run ops σ)
    = (Fulfilled {| found := presence_after_all t k ops (bool_decide (k ∈ set)) |},
       run ops σ).
Proof.
  intros Hσ. destruct (run_presence ops t k σ set Hσ) as (set' & H & E).
  rewrite (searchCQF_built _ _ _ _ H). unfold Set_has. by rewrite E.
Qed.

Lemma search_answers_last_write_witness :
  let ops := [Delete "users" "2"; Insert "users" "9"; Build "orders" ["2"];
              Insert "users" "2"; Delete "users" "9"] in
  (searchCQF "users" "2" (run ops users_store)).1 = Fulfilled {| found := true |} ∧
  (searchCQF "users" "9" (run ops users_store)).1 = Fulfilled {| found := false |}.
Proof.
  intros ops. split.
  - rewrite (search_answers_last_write users_store "users" "2"
               (Set_new ["1"; "2"; "3"]) ops); reflexivity.
  - rewrite (search_answers_last_write users_store "users" "9"
               (Set_new ["1"; "2"; "3"]) ops); reflexivity.
Defined.

(** ** Which tables are built *)

Lemma run_absent_iff ops t : ∀ (σ : Store),
  run ops σ !! t = None ↔
  σ !! t = None ∧ forallb (λ o, negb (is_build_of t o)) ops = true.
Proof.
  induction ops as [|o ops IH]; intros σ.
  - simpl. naive_solver.
  - rewrite run_cons, IH. cbn [forallb]. rewrite andb_true_iff, negb_true_iff.
    split.
    + intros [Hstep Hrest].
      destruct (σ !! t) as [set|] eqn:Hσ.
      * destruct (step_keeps_built o t σ) as [s' Hs']; [by eexists|].
        congruence.
      * split; [done|]. split; [|done].
        destruct o as [t' keys|t' key|t' key|t' key]; simpl; try done.
        case_bool_decide as Ht; [subst|done].
        rewrite step_Build, lookup_insert_eq in Hstep. done.
    + intros (Hσ & Hb & Hrest). split; [|done].
      by apply step_keeps_absent.
Qed.

(** X2. Starting from the empty store, a call on table [t] is rejected with
    the "not built" error exactly if no build of [t] occurred among the
    calls made so far: building is the only way to create a filter, and
    nothing ever removes one. *)
Theorem rejected_iff_never_built (ops : list Op) (t k : string) :
  ((searchCQF t k (run ops ∅)).1 = Rejected not_built ↔
     forallb (λ o, negb (is_build_of t o)) ops = true) ∧
  ((insertCQF t k (run ops ∅)).1 = Rejected not_built ↔
     forallb (λ o, negb (is_build_of t o)) ops = true) ∧
  ((deleteCQF t k (run ops ∅)).1 = Rejected not_built ↔
     forallb (λ o, negb (is_build_of t o)) ops = true).
Proof.
  pose proof (run_absent_iff ops t ∅) as Habs.
  rewrite lookup_empty in Habs.
  destruct (run ops ∅ !! t) as [set|] eqn:H.
  - assert (forallb (λ o, negb (is_build_of t o)) ops ≠ true) as Hn
      by (intros Hb; by destruct Habs as [_ Habs]; specialize (Habs (conj eq_refl Hb))).
    rewrite (searchCQF_built _ _ _ _ H), (insertCQF_built _ _ _ _ H),
      (deleteCQF_built _ _ _ _ H). simpl.
    split_and!; (split; [discriminate|done]).
  - destruct Habs as [Habs _]. destruct (Habs eq_refl) as [_ Hb].
    rewrite (searchCQF_unbuilt _ _ _ H), (insertCQF_unbuilt _ _ _ H),
      (deleteCQF_unbuilt _ _ _ H). simpl.
    split_and!; (split; done).
Qed.

(** ** Calls on other tables and other keys *)

Lemma step_other_table o B (σ : Store) :
  op_table o ≠ B → step o σ !! B = σ !! B.
Proof.
  intros Hne. destruct o as [t keys|t key|t key|t key]; simpl in Hne.
  - by rewrite step_Build, lookup_insert_ne.
  - by rewrite step_Search.
  - rewrite step_Insert. destruct (σ !! t); [|done].
    by rewrite lookup_insert_ne.
  - rewrite step_Delete. destruct (σ !! t); [|done].
    by rewrite lookup_insert_ne.
Qed.

(** X3. A sequence of calls none of which addresses table [B] leaves the
    entry of [B] as it was: present or absent as before and with the same
    members, so every search on [B] answers the same. *)
Theorem calls_on_other_tables_frame (ops : list Op) (B : string) (σ : Store) :
  forallb (λ o, negb (bool_decide (op_table o = B))) ops = true →
  run ops σ !! B = σ !! B ∧
  ∀ k, (searchCQF B k (run ops σ)).1 = (searchCQF B k σ).1.
Proof.
  intros Hops.
  assert (run ops σ !! B = σ !! B) as E.
  { revert σ. induction ops as [|o ops IH]; intros σ; [done|].
    simpl in Hops. apply andb_prop in Hops as [Ho Hops].
    apply negb_true_iff, bool_decide_eq_false in Ho.
    rewrite run_cons, IH by done. by apply step_other_table. }
  split; [done|]. intros k.
  destruct (σ !! B) as [set|] eqn:HB.
  - by rewrite (searchCQF_built _ _ _ _ E), (searchCQF_built _ _ _ _ HB).
  - by rewrite (searchCQF_unbuilt _ _ _ E), (searchCQF_unbuilt _ _ _ HB).
Qed.

Lemma calls_on_other_tables_frame_witness :
  let ops := [Build "orders" ["7"]; Insert "orders" "2"; Delete "orders" "7";
              Insert "items" "2"] in
  run ops users_store !! "users" = users_store !! "users" ∧
  ∀ k, (searchCQF "users" k (run ops users_store)).1
       = (searchCQF "users" k users_store).1.
Proof.
  intros ops. apply (calls_on_other_tables_frame ops "users" users_store).
  reflexivity.
Defined.

(** X4. Inserting or deleting key [k] does not change what a search for any
    other key [k'] of the same table answers. *)
Theorem other_keys_untouched (σ : Store) (t k k' : string) :
  k ≠ k' →
  (searchCQF t k' (insertCQF t k σ).2).1 = (searchCQF t k' σ).1 ∧
  (searchCQF t k' (deleteCQF t k σ).2).1 = (searchCQF t k' σ).1.
Proof.
  intros Hne. destruct (σ !! t) as [set|] eqn:H.
  - rewrite (insertCQF_built _ _ _ _ H), (deleteCQF_built _ _ _ _ H). simpl.
    rewrite (searchCQF_built t k' (<[t:=Set_add k set]> σ) (Set_add k set))
      by apply lookup_insert_eq.
    rewrite (searchCQF_built t k' (<[t:=set ∖ {[k]}]> σ) (set ∖ {[k]}))
      by apply lookup_insert_eq.
    rewrite (searchCQF_built _ _ _ _ H). simpl. unfold Set_has, Set_add.
    split; do 2 f_equal; apply bool_decide_ext; set_solver.
  - by rewrite (insertCQF_unbuilt _ _ _ H), (deleteCQF_unbuilt _ _ _ H).
Qed.

Lemma other_keys_untouched_witness :
  (searchCQF "users" "3" (insertCQF "users" "9" users_store).2).1
    = (searchCQF "users" "3" users_store).1 ∧
  (searchCQF "users" "3" (deleteCQF "users" "9" users_store).2).1
    = (searchCQF "users" "3" users_store).1.
Proof.
  apply (other_keys_untouched users_store "users" "9" "3"). discriminate.
Defined.

(** ** How calls compose *)

Lemma step_written o (σ : Store) :
  step o σ = match written o (σ !! op_table o) with
             | Some set => <[ op_table o := set ]> σ
             | None => σ
             end.
Proof.
  destruct o as [t keys|t key|t key|t key]; simpl.
  - apply step_Build.
  - apply step_Search.
  - rewrite step_Insert. by destruct (σ !! t).
  - rewrite step_Delete. by destruct (σ !! t).
Qed.

Lemma call_response_local o (σ σ' : Store) :
  σ !! op_table o = σ' !! op_table o → (call o σ).1 = (call o σ').1.
Proof.
  intros E. destruct o as [t keys|t key|t key|t key]; simpl in E;
    unfold call, mbind, Async_bind.
  - by rewrite !buildCQF_eq.
  - destruct (σ !! t) as [set|] eqn:H; symmetry in E.
    + by rewrite (searchCQF_built _ _ _ _ H), (searchCQF_built _ _ _ _ E).
    + by rewrite (searchCQF_unbuilt _ _ _ H), (searchCQF_unbuilt _ _ _ E).
  - destruct (σ !! t) as [set|] eqn:H; symmetry in E.
    + by rewrite (insertCQF_built _ _ _ _ H), (insertCQF_built _ _ _ _ E).
    + by rewrite (insertCQF_unbuilt _ _ _ H), (insertCQF_unbuilt _ _ _ E).
  - destruct (σ !! t) as [set|] eqn:H; symmetry in E.
    + by rewrite (deleteCQF_built _ _ _ _ H), (deleteCQF_built _ _ _ _ E).
    + by rewrite (deleteCQF_unbuilt _ _ _ H), (deleteCQF_unbuilt _ _ _ E).
Qed.

(** X5. Two calls that address different tables commute: either order
    leaves the same store, and each call settles to the same response
    whether or not the other ran first. *)
Theorem calls_on_different_tables_commute (o1 o2 : Op) (σ : Store) :
  op_table o1 ≠ op_table o2 →
  step o1 (step o2 σ) = step o2 (step o1 σ) ∧
  (call o1 (step o2 σ)).1 = (call o1 σ).1 ∧
  (call o2 (step o1 σ)).1 = (call o2 σ).1.
Proof.
  intros Hne.
  assert (step o2 σ !! op_table o1 = σ !! op_table o1) as E1
    by (apply step_other_table; congruence).
  assert (step o1 σ !! op_table o2 = σ !! op_table o2) as E2
    by (apply step_other_table; congruence).
  split_and!.
  - rewrite (step_written o1 (step o2 σ)), (step_written o2 (step o1 σ)).
    rewrite E1, E2. rewrite (step_written o1 σ), (step_written o2 σ).
    destruct (written o1 (σ !! op_table o1)) as [s1|],
             (written o2 (σ !! op_table o2)) as [s2|]; try done.
    by apply insert_insert_ne.
  - by apply call_response_local.
  - by apply call_response_local.
Qed.

Lemma calls_on_different_tables_commute_witness :
  step (Insert "users" "9") (step (Build "orders" ["7"]) users_store)
    = step (Build "orders" ["7"]) (step (Insert "users" "9") users_store).
Proof.
  apply (calls_on_different_tables_commute
           (Insert "users" "9") (Build "orders" ["7"]) users_store).
  discriminate.
Defined.

(** X6. Insert and delete are idempotent, two inserts commute and two
    deletes commute, on any store (built table or not). *)
Theorem insert_delete_idempotent_commute (σ : Store) (t k1 k2 : string) :
  step (Insert t k1) (step (Insert t k1) σ) = step (Insert t k1) σ ∧
  step (Delete t k1) (step (Delete t k1) σ) = step (Delete t k1) σ ∧
  step (Insert t k1) (step (Insert t k2) σ)
    = step (Insert t k2) (step (Insert t k1) σ) ∧
  step (Delete t k1) (step (Delete t k2) σ)
    = step (Delete t k2) (step (Delete t k1) σ).
Proof.
  rewrite !step_Insert, !step_Delete.
  destruct (σ !! t) as [set|] eqn:H.
  - rewrite !lookup_insert_eq, !insert_insert_eq. unfold Set_add.
    split_and!; f_equal; set_solver.
  - rewrite !H. done.
Qed.

(** X7. On one table, an insert and a delete of different keys commute. *)
Theorem insert_delete_other_key_commute (σ : Store) (t k1 k2 : string) :
  k1 ≠ k2 →
  step (Insert t k1) (step (Delete t k2) σ)
    = step (Delete t k2) (step (Insert t k1) σ).
Proof.
  intros Hne. rewrite !step_Insert, !step_Delete.
  destruct (σ !! t) as [set|] eqn:H.
  - rewrite !lookup_insert_eq, !insert_insert_eq. unfold Set_add.
    f_equal. set_solver.
  - rewrite !H. done.
Qed.

Lemma insert_delete_other_key_commute_witness :
  step (Insert "users" "9") (step (Delete "users" "2") users_store)
    = step (Delete "users" "2") (step (Insert "users" "9") users_store).
Proof.
  apply (insert_delete_other_key_commute users_store "users" "9" "2").
  discriminate.
Defined.

(** X8. The number of stored keys follows the calls: an insert adds one
    exactly when the key is new, a delete removes one exactly when the key
    is a member. *)
Theorem size_follows_calls (σ : Store) (t k : string) (set : gset string) :
  σ !! t = Some set →
  Set_size <$> ((insertCQF t k σ).2 !! t)
    = Some (if bool_decide (k ∈ set) then size set else S (size set)) ∧
  Set_size <$> ((deleteCQF t k σ).2 !! t)
    = Some (if bool_decide (k ∈ set) then size set - 1 else size set).
Proof.
  intros H. rewrite (insertCQF_built _ _ _ _ H), (deleteCQF_built _ _ _ _ H).
  simpl. rewrite !lookup_insert_eq. simpl. unfold Set_size, Set_add.
  case_bool_decide as Hk; split; f_equal.
  - f_equal. set_solver.
  - rewrite size_difference by set_solver. by rewrite size_singleton.
  - rewrite size_union by set_solver. by rewrite size_singleton.
  - f_equal. set_solver.
Qed.

Lemma size_follows_calls_witness :
  Set_size <$> ((insertCQF "users" "9" users_store).2 !! "users") = Some 4 ∧
  Set_size <$> ((deleteCQF "users" "9" users_store).2 !! "users") = Some 3.
Proof.
  apply (size_follows_calls users_store "users" "9" (Set_new ["1"; "2"; "3"])).
  reflexivity.
Defined.

(** X9. Searches have no effect on the store: dropping every search from a
    sequence of calls leaves the same final store. *)
Theorem searches_leave_no_trace (ops : list Op) (σ : Store) :
  run (List.filter (λ o, negb (is_search o)) ops) σ = run ops σ.
Proof.
  revert σ. induction ops as [|o ops IH]; intros σ; [done|].
  cbn [List.filter]. destruct o as [t keys|t key|t key|t key]; cbn [is_search negb];
    rewrite ?run_cons, ?step_Search; apply IH.
Qed.

(** ** Build against insert and delete *)

Lemma run_inserts t keys : ∀ (σ : Store) set,
  σ !! t = Some set →
  run (Insert t <$> keys) σ
    = <[ t := foldl (λ set key, Set_add key set) set keys ]> σ.
Proof.
  induction keys as [|k keys IH]; intros σ set H.
  - simpl. symmetry. by apply insert_id.
  - cbn [fmap list_fmap]. rewrite run_cons, step_Insert, H.
    rewrite (IH _ (Set_add k set)) by apply lookup_insert_eq.
    cbn [foldl]. by rewrite insert_insert_eq.
Qed.

Lemma run_deletes t keys : ∀ (σ : Store) set,
  σ !! t = Some set →
  run (Delete t <$> keys) σ = <[ t := set ∖ list_to_set keys ]> σ.
Proof.
  induction keys as [|k keys IH]; intros σ set H.
  - simpl. symmetry. apply insert_id. rewrite H. f_equal. set_solver.
  - cbn [fmap list_fmap]. rewrite run_cons, step_Delete, H.
    rewrite (IH _ (set ∖ {[k]})) by apply lookup_insert_eq.
    rewrite insert_insert_eq. f_equal. set_solver.
Qed.

(** X10. Building a table from [keys] leaves the same store as building it
    from no keys and then inserting the keys one after the other. *)
Theorem build_is_empty_build_then_inserts (σ : Store) (t : string)
    (keys : list string) :
  run (Build t [] :: (Insert t <$> keys)) σ = step (Build t keys) σ.
Proof.
  rewrite run_cons, !step_Build.
  rewrite (run_inserts t keys _ (Set_new [])) by apply lookup_insert_eq.
  by rewrite insert_insert_eq.
Qed.

(** X11. Deleting every key a table was built from empties its filter but
    keeps the table built: a search is then fulfilled with [found = false]
    for every key, not rejected. *)
Theorem delete_all_keys_keeps_table (σ : Store) (t : string)
    (keys : list string) (k : string) :
  run (Build t keys :: (Delete t <$> keys)) σ !! t = Some ∅ ∧
  (searchCQF t k (run (Build t keys :: (Delete t <$> keys)) σ)).1
    = Fulfilled {| found := false |}.
Proof.
  rewrite run_cons, step_Build.
  rewrite (run_deletes t keys _ (Set_new keys)) by apply lookup_insert_eq.
  assert (Set_new keys ∖ list_to_set keys = (∅ : gset string)) as ->.
  { rewrite Set_new_list_to_set. set_solver. }
  split; [apply lookup_insert_eq|].
  by rewrite (searchCQF_built t k _ ∅) by apply lookup_insert_eq.
Qed.

(** X12. The filter a build stores depends only on which keys occur in the
    array, not on their order or repetition. *)
Theorem build_ignores_order_and_repetition (σ : Store) (t : string)
    (keys1 keys2 : list string) :
  (∀ k, k ∈ keys1 ↔ k ∈ keys2) →
  (buildCQF t keys1 σ).2 = (buildCQF t keys2 σ).2.
Proof.
  intros Hsame. rewrite !buildCQF_eq. simpl. f_equal.
  apply set_eq. intros k. by rewrite !elem_of_Set_new.
Qed.

Lemma build_ignores_order_and_repetition_witness :
  (buildCQF "users" ["2"; "1"; "2"; "3"; "1"] ∅).2
    = (buildCQF "users" ["1"; "2"; "3"] ∅).2.
Proof.
  apply (build_ignores_order_and_repetition ∅ "users").
  intros k. rewrite !elem_of_cons, !elem_of_nil. tauto.
Defined.

(** ** Reading the exported key file *)

Lemma split_LF_piece (w : string) :
  has_LF w = false → split_LF w = [w].
Proof.
  induction w as [|c w IH]; [done|]. cbn [has_LF split_LF].
  intros H. apply orb_false_elim in H as [Hc Hw].
  rewrite Hc. by rewrite (IH Hw).
Qed.

Lemma split_LF_cut (w rest : string) :
  has_LF w = false → split_LF (w +:+ LF +:+ rest) = w :: split_LF rest.
Proof.
  induction w as [|c w IH]; intros H.
  - change ("" +:+ LF +:+ rest) with (String LF_char rest).
    cbn [split_LF]. by rewrite bool_decide_eq_true_2.
  - cbn [has_LF] in H. apply orb_false_elim in H as [Hc Hw].
    rewrite append_cons. cbn [split_LF]. rewrite Hc. by rewrite (IH Hw).
Qed.

Lemma split_LF_join_rest (e : string) (rest : list string) :
  has_LF e = false → forallb (λ w, negb (has_LF w)) rest = true →
  split_LF (e +:+ join_rest LF rest) = e :: rest.
Proof.
  revert e. induction rest as [|e' rest IH]; intros e He Hrest.
  - cbn [join_rest foldr]. rewrite append_empty_r. by apply split_LF_piece.
  - simpl in Hrest. apply andb_prop in Hrest as [He' Hrest].
    apply negb_true_iff in He'.
    change (join_rest LF (e' :: rest)) with (LF +:+ e' +:+ join_rest LF rest).
    rewrite split_LF_cut by done. by rewrite IH.
Qed.

(** X13. The exported file can be read back: when there is at least one key
    and no key contains a line feed, cutting the content of the file at the
    line feeds gives back exactly the keys, in order. *)
Theorem pk_file_reads_back (keys : list string) :
  keys ≠ [] →
  forallb (λ w, negb (has_LF w)) keys = true →
  split_LF (generatePKFileContent keys) = keys.
Proof.
  intros Hne Hkeys. destruct keys as [|e rest]; [done|].
  simpl in Hkeys. apply andb_prop in Hkeys as [He Hrest].
  apply negb_true_iff in He.
  unfold generatePKFileContent. rewrite Array_join_cons.
  by apply split_LF_join_rest.
Qed.

Lemma pk_file_reads_back_witness :
  split_LF (generatePKFileContent ["10"; ""; "alice"]) = ["10"; ""; "alice"].
Proof.
  apply (pk_file_reads_back ["10"; ""; "alice"]).
  - discriminate.
  - reflexivity.
Defined.

Lemma append_eq_empty (s1 s2 : string) : s1 +:+ s2 = "" → s1 = "" ∧ s2 = "".
Proof.
  destruct s1 as [|c s1].
  - intros H. split; [done|]. exact H.
  - rewrite append_cons. discriminate.
Qed.

(** X14. The exported file is empty in exactly two cases: there is no key,
    or there is one key and it is the empty string.  (So an empty file does
    not tell the two apart.) *)
Theorem pk_file_empty_iff (keys : list string) :
  generatePKFileContent keys = "" ↔ keys = [] ∨ keys = [""].
Proof.
  unfold generatePKFileContent. split.
  - intros H. destruct keys as [|e rest]; [by left|]. right.
    rewrite Array_join_cons in H. apply append_eq_empty in H as [-> Hrest].
    destruct rest as [|e' rest]; [done|]. discriminate.
  - by intros [-> | ->].
Qed.

(** * Properties of the page *)

(** ** Settling a task *)

Lemma settle_action_built time action t k (s : AppState) set :
  mockBackendStore s !! t = Some set →
  settle_action time action t k s
    = set_searchKey ""
        (set_cqfOperationLoading false
           (addToConsole time (true_line action k set)
              (set_mockBackendStore
                 (step (action_op action t k) (mockBackendStore s)) s))).
Proof.
  intros H. unfold settle_action. destruct action; simpl.
  - rewrite (searchCQF_built _ _ _ _ H), step_Search. simpl.
    unfold Set_has. by destruct (bool_decide (k ∈ set)).
  - rewrite (insertCQF_built _ _ _ _ H), step_Insert, H. done.
  - rewrite (deleteCQF_built _ _ _ _ H), step_Delete, H. simpl.
    by destruct (bool_decide (k ∈ set)).
Qed.

Lemma settle_action_store time action t k (s : AppState) :
  mockBackendStore (settle_action time action t k s)
    = step (action_op action t k) (mockBackendStore s).
Proof.
  destruct (mockBackendStore s !! t) as [set|] eqn:H.
  - by rewrite (settle_action_built _ _ _ _ _ _ H).
  - unfold settle_action. destruct action; simpl.
    + by rewrite (searchCQF_unbuilt _ _ _ H), step_Search.
    + by rewrite (insertCQF_unbuilt _ _ _ H), step_Insert, H.
    + by rewrite (deleteCQF_unbuilt _ _ _ H), step_Delete, H.
Qed.

Lemma settle_build_eq time t keys (s : AppState) :
  settle_build time t keys s
    = set_isLoading false
        (addToConsole time ("[SYSTEM] " +:+ build_message t (length keys))
           (set_cqfBuiltTables ({[ t ]} ∪ cqfBuiltTables s)
              (set_mockBackendStore
                 (<[ t := Set_new keys ]> (mockBackendStore s)) s))).
Proof. reflexivity. Qed.

Lemma settle_upload_frame outcome (s : AppState) :
  mockBackendStore (settle_upload outcome s) = mockBackendStore s ∧
  cqfBuiltTables (settle_upload outcome s) = cqfBuiltTables s ∧
  pending (settle_upload outcome s) = pending s.
Proof. by destruct outcome as [|d|d [|table rest]]. Qed.

Lemma settle_pending time task (s : AppState) :
  pending (settle time task s) = pending s.
Proof.
  destruct task as [outcome|table pk|t keys|action t k]; cbn [settle].
  - apply settle_upload_frame.
  - done.
  - done.
  - unfold settle_action.
    by destruct action;
      [destruct (searchCQF t k (mockBackendStore s)) as [[]]
      |destruct (insertCQF t k (mockBackendStore s)) as [[]]
      |destruct (deleteCQF t k (mockBackendStore s)) as [[]]].
Qed.

Lemma settle_built_tables time task (s : AppState) (t : string) :
  t ∈ cqfBuiltTables (settle time task s) →
  t ∈ cqfBuiltTables s ∨ ∃ keys, task = PendingBuild t keys.
Proof.
  destruct task as [outcome|table pk|t' keys|action t' k]; cbn [settle].
  - destruct (settle_upload_frame outcome s) as (_ & -> & _). auto.
  - auto.
  - rewrite settle_build_eq. simpl. rewrite elem_of_union, elem_of_singleton.
    intros [->|?]; eauto.
  - unfold settle_action.
    destruct action;
      [destruct (searchCQF t' k (mockBackendStore s)) as [[]]
      |destruct (insertCQF t' k (mockBackendStore s)) as [[]]
      |destruct (deleteCQF t' k (mockBackendStore s)) as [[]]]; simpl; auto.
Qed.

Lemma settle_store time task (s : AppState) :
  mockBackendStore (settle time task s)
    = match task with
      | PendingBuild t keys => step (Build t keys) (mockBackendStore s)
      | PendingAction action t k =>
          step (action_op action t k) (mockBackendStore s)
      | _ => mockBackendStore s
      end.
Proof.
  destruct task as [outcome|table pk|t keys|action t k]; cbn [settle].
  - apply settle_upload_frame.
  - done.
  - by rewrite settle_build_eq, step_Build.
  - apply settle_action_store.
Qed.

Lemma settle_keeps_built time task (s : AppState) (t : string) :
  is_Some (mockBackendStore s !! t) →
  is_Some (mockBackendStore (settle time task s) !! t).
Proof.
  intros H. rewrite settle_store.
  destruct task; auto using step_keeps_built.
Qed.

Lemma ui_step_keeps_built e (s : AppState) (t : string) :
  is_Some (mockBackendStore s !! t) →
  is_Some (mockBackendStore (ui_step e s) !! t).
Proof.
  intros H. destruct e as [[[file_name outcome]|]|table| | |text|action|i time];
    simpl; try done.
  - unfold handleDownloadPKs. repeat case_match; done.
  - unfold handleBuildCQF. repeat case_match; done.
  - unfold performCqfAction. repeat case_match; done.
  - destruct (pending s !! i) as [task|]; [|done].
    by apply settle_keeps_built.
Qed.

(** X15. The page never drops a filter from the backend store: whatever
    happens on the page (a new upload included, which resets the list of
    built tables), a table that has a filter in the store keeps one. *)
Theorem page_never_drops_filters (events : list UiEvent) (s : AppState)
    (t : string) :
  is_Some (mockBackendStore s !! t) →
  is_Some (mockBackendStore (ui_run events s) !! t).
Proof.
  revert s. induction events as [|e events IH]; intros s H; [done|].
  apply IH. by apply ui_step_keeps_built.
Qed.

Lemma page_never_drops_filters_witness :
  is_Some (mockBackendStore
             (ui_run [EvUpload (Some ("other.db", LoadFails)); EvSettle 0 "10:05:00"]
                     (ui_run demo_events App_init)) !! "users") ∧
  cqfBuiltTables
    (ui_run [EvUpload (Some ("other.db", LoadFails)); EvSettle 0 "10:05:00"]
            (ui_run demo_events App_init)) = ∅.
Proof.
  split; [|reflexivity].
  apply (page_never_drops_filters
           [EvUpload (Some ("other.db", LoadFails)); EvSettle 0 "10:05:00"]
           (ui_run demo_events App_init) "users").
  vm_compute. eauto.
Defined.

(** ** The invariant of the page *)

Lemma page_inv_step e (s : AppState) :
  page_inv s → possible s e = true → page_inv (ui_step e s).
Proof.
  intros [Hbuilt Hpend] Hposs.
  destruct e as [[[file_name outcome]|]|table| | |text|action|i time]; simpl.
  - split; simpl.
    + intros tn Ht. by apply elem_of_empty in Ht.
    + intros a tn kk Hin. apply elem_of_app in Hin as [Hin|Hin]; [eauto|].
      by apply list_elem_of_singleton in Hin.
  - done.
  - done.
  - unfold handleDownloadPKs. repeat case_match; try done.
    split; simpl; [done|].
    intros a tn kk Hin. apply elem_of_app in Hin as [Hin|Hin]; [eauto|].
    by apply list_elem_of_singleton in Hin.
  - unfold handleBuildCQF. repeat case_match; try done.
    split; simpl; [done|].
    intros a tn kk Hin. apply elem_of_app in Hin as [Hin|Hin]; [eauto|].
    by apply list_elem_of_singleton in Hin.
  - done.
  - simpl in Hposs. unfold isCqfReady in Hposs. unfold performCqfAction.
    destruct (selectedTable s) as [table|]; [|done].
    apply bool_decide_eq_true in Hposs.
    case_bool_decide as Hkey; [done|].
    split; simpl; [done|].
    intros a tn kk Hin. apply elem_of_app in Hin as [Hin|Hin]; [eauto|].
    apply list_elem_of_singleton in Hin. simplify_eq. eauto.
  - destruct (pending s !! i) as [task|] eqn:Hi; [|done].
    set (s0 := set_pending (delete i (pending s)) s).
    split.
    + intros tn Ht. apply settle_built_tables in Ht as [Ht|[keys ->]].
      * apply settle_keeps_built. by apply Hbuilt.
      * rewrite settle_store, step_Build, lookup_insert_eq. eauto.
    + intros a tn kk Hin. rewrite settle_pending in Hin. simpl in Hin.
      apply list_elem_of_delete_inv in Hin.
      destruct (Hpend _ _ _ Hin) as [Hsome Hk]. split; [|done].
      by apply settle_keeps_built.
Qed.

Lemma reachable_page_inv (s : AppState) : reachable s → page_inv s.
Proof.
  induction 1 as [|s e _ IH Hposs].
  - split.
    + intros t Ht. by apply elem_of_empty in Ht.
    + intros a t k Hin. by apply elem_of_nil in Hin.
  - by apply page_inv_step.
Qed.

Lemma reachable_run events : ∀ (s : AppState),
  reachable s → all_possible events s = true → reachable (ui_run events s).
Proof.
  induction events as [|e events IH]; intros s Hs Hok; [done|].
  simpl in Hok. apply andb_prop in Hok as [Hposs Hok].
  apply IH; [|done]. by apply reachable_step.
Qed.

(** X16. In every state of the page, each table marked as built (shown as
    "Active") has a filter in the backend store. *)
Theorem active_tables_have_filters (s : AppState) (t : string) :
  reachable s → t ∈ cqfBuiltTables s → is_Some (mockBackendStore s !! t).
Proof. intros Hs Ht. by apply (reachable_page_inv s Hs). Qed.

Lemma active_tables_have_filters_witness :
  is_Some (mockBackendStore (ui_run demo_events App_init) !! "users").
Proof.
  apply (active_tables_have_filters (ui_run demo_events App_init) "users").
  - apply reachable_run; [apply reachable_init|reflexivity].
  - apply (bool_decide_unpack
             ("users" ∈ cqfBuiltTables (ui_run demo_events App_init))).
    vm_compute. exact I.
Defined.

(** X17. An action issued from the page is never rejected by the service,
    and the page reports it truthfully: in every state of the page, a
    pending search, insert or delete has a non-empty key and a table with a
    filter in the store, and when it settles the line put on top of the
    console is the one for the true result on that filter (FOUND exactly
    for a member, delete SUCCESS exactly for a member), never the error
    line. *)
Theorem page_actions_report_truthfully (s : AppState) (i : nat)
    (action : CqfAction) (t k time : string) :
  reachable s →
  pending s !! i = Some (PendingAction action t k) →
  ∃ set, mockBackendStore s !! t = Some set ∧ k ≠ "" ∧
         cqfConsole (ui_step (EvSettle i time) s)
           = ("[" +:+ time +:+ "] " +:+ true_line action k set) :: cqfConsole s.
Proof.
  intros Hs Hi. destruct (reachable_page_inv s Hs) as [_ Hpend].
  destruct (Hpend action t k) as [[set Hset] Hk];
    [by apply list_elem_of_lookup_2 with i|].
  exists set. split_and!; [done..|].
  cbn [ui_step]. rewrite Hi. cbn [settle].
  by rewrite (settle_action_built _ _ _ _ _ set).
Qed.

Lemma page_actions_report_truthfully_witness :
  let s := ui_run (demo_events ++ [EvAction ActSearch])%list App_init in
  ∃ set, mockBackendStore s !! "users" = Some set ∧ "2" ≠ "" ∧
         cqfConsole (ui_step (EvSettle 0 "10:00:03") s)
           = ("[" +:+ "10:00:03" +:+ "] " +:+ true_line ActSearch "2" set)
               :: cqfConsole s.
Proof.
  intros s.
  apply (page_actions_report_truthfully s 0 ActSearch "users" "2" "10:00:03").
  - apply reachable_run; [apply reachable_init|reflexivity].
  - reflexivity.
Defined.

Example demo_console :
  cqfConsole (ui_run (demo_events
                        ++ [EvAction ActSearch; EvSettle 0 "10:00:03";
                            EvType "2"; EvAction ActDelete; EvSettle 0 "10:00:04";
                            EvType "2"; EvAction ActDelete; EvSettle 0 "10:00:05"])%list
                     App_init)
  = [ "[10:00:05] Delete '2': FAILED (Not found)";
      "[10:00:04] Delete '2': SUCCESS";
      "[10:00:03] Search '2': FOUND";
      "[10:00:02] [SYSTEM] CQF built successfully for users with 3 keys." ].
Proof. reflexivity. Qed.

(** ** A click and the task it starts *)

Lemma settle_last time task (s : AppState) (hs : AppState) :
  pending hs = (pending s ++ [task])%list →
  ui_step (EvSettle (length (pending s)) time) hs
    = settle time task (set_pending (pending s) hs).
Proof.
  intros Hp. cbn [ui_step]. rewrite Hp.
  rewrite list_lookup_middle by done.
  by rewrite delete_middle, app_nil_r.
Qed.

Lemma build_click_settles (s : AppState) table pk time :
  selectedTable s = Some table → pkColumn table = Some pk → pk ≠ "" →
  ui_run [EvBuild; EvSettle (length (pending s)) time] s
    = settle_build time (name table) (getPrimaryKeys (db s) (name table) pk)
        (set_pending (pending s)
           (set_loadingMessage "Building CQF in Backend..."
              (set_isLoading true s))).
Proof.
  intros Hsel Hpk Hne. unfold ui_run. cbn [foldl].
  assert (ui_step EvBuild s
          = set_pending
              (pending s ++ [PendingBuild (name table)
                               (getPrimaryKeys (db s) (name table) pk)])%list
              (set_loadingMessage "Building CQF in Backend..."
                 (set_isLoading true s))) as ->.
  { cbn [ui_step]. unfold handleBuildCQF. rewrite Hsel, Hpk. simpl.
    by rewrite bool_decide_eq_false_2. }
  by rewrite (settle_last time (PendingBuild (name table)
                (getPrimaryKeys (db s) (name table) pk)) s).
Qed.

(** X18. Clicking Build on a table with a primary key and letting the call
    settle always ends well: the table is marked as built, its filter holds
    the keys extracted when the button was clicked, the console gets the
    [SYSTEM] line with the number of extracted keys, and the loading
    overlay is lifted.  The error branch of the handler is never taken. *)
Theorem build_click_marks_active (s : AppState) (table : TableInfo)
    (pk time : string) :
  selectedTable s = Some table → pkColumn table = Some pk → pk ≠ "" →
  mockBackendStore (ui_run [EvBuild; EvSettle (length (pending s)) time] s)
      !! name table
    = Some (Set_new (getPrimaryKeys (db s) (name table) pk)) ∧
  name table
    ∈ cqfBuiltTables (ui_run [EvBuild; EvSettle (length (pending s)) time] s) ∧
  cqfConsole (ui_run [EvBuild; EvSettle (length (pending s)) time] s)
    = ("[" +:+ time +:+ "] [SYSTEM] "
         +:+ build_message (name table)
               (length (getPrimaryKeys (db s) (name table) pk)))
        :: cqfConsole s ∧
  isLoading (ui_run [EvBuild; EvSettle (length (pending s)) time] s) = false.
Proof.
  intros Hsel Hpk Hne.
  rewrite (build_click_settles s table pk time Hsel Hpk Hne), settle_build_eq.
  simpl. split_and!; [apply lookup_insert_eq|set_solver|done|done].
Qed.

Lemma build_click_marks_active_witness :
  let s := ui_run [EvUpload (Some ("demo.db", Loaded demo_db [demo_table]));
                   EvSettle 0 "10:00:00"] App_init in
  cqfConsole (ui_run [EvBuild; EvSettle (length (pending s)) "10:00:02"] s)
    = ("[" +:+ "10:00:02" +:+ "] [SYSTEM] "
         +:+ build_message (name demo_table)
               (length (getPrimaryKeys (db s) (name demo_table) "id")))
        :: cqfConsole s.
Proof.
  intros s.
  apply (build_click_marks_active s demo_table "id" "10:00:02");
    [reflexivity|reflexivity|discriminate].
Defined.



Lemma download_click_settles (s : AppState) table pk time :
  selectedTable s = Some table → pkColumn table = Some pk → pk ≠ "" →
  downloads (ui_run [EvDownload; EvSettle (length (pending s)) time] s)
    = (name table +:+ "_pks.txt",
       generatePKFileContent (getPrimaryKeys (db s) (name table) pk))
        :: downloads s.
Proof.
  intros Hsel Hpk Hne. unfold ui_run. cbn [foldl].
  assert (ui_step EvDownload s
          = set_pending (pending s ++ [PendingDownload table pk])%list
              (set_loadingMessage "Extracting Primary Keys..."
                 (set_isLoading true s))) as ->.
  { cbn [ui_step]. unfold handleDownloadPKs. rewrite Hsel, Hpk. simpl.
    by rewrite bool_decide_eq_false_2. }
  by rewrite (settle_last time (PendingDownload table pk) s).
Qed.

(** X20. The downloaded key file lists the table: when the key query
    returns rows, at least one, and the text of no first cell contains a
    line feed, the file offered for download is named after the table and
    cutting its content at the line feeds gives the text of the first cell
    of every row, in row order. *)
Theorem download_lists_rows (s : AppState) (table : TableInfo) (pk time : string)
    (d : Database) (r : QueryExecResult) (more : list QueryExecResult) :
  selectedTable s = Some table → pkColumn table = Some pk → pk ≠ "" →
  db s = Some d →
  exec d (pk_query (name table) pk) = ExecReturns (r :: more) →
  values r ≠ [] →
  forallb (λ row, negb (has_LF (JS_String (row !! 0)))) (values r) = true →
  ∃ content,
    downloads (ui_run [EvDownload; EvSettle (length (pending s)) time] s)
      = (name table +:+ "_pks.txt", content) :: downloads s ∧
    split_LF content = (λ row, JS_String (row !! 0)) <$> values r.
Proof.
  intros Hsel Hpk Hne Hdb Hexec Hrows Hlf.
  rewrite (download_click_settles s table pk time Hsel Hpk Hne).
  eexists. split; [done|].
  unfold getPrimaryKeys. rewrite Hdb, Hexec.
  destruct (values r) as [|row rows]; [done|].
  cbn [fmap list_fmap]. unfold generatePKFileContent.
  rewrite Array_join_cons. simpl in Hlf.
  apply andb_prop in Hlf as [Hrow Hrest]. apply negb_true_iff in Hrow.
  apply split_LF_join_rest; [done|].
  clear -Hrest. induction rows as [|row' rows IH]; [done|].
  cbn [forallb] in Hrest. apply andb_prop in Hrest as [H1 H2].
  cbn [fmap list_fmap forallb]. rewrite H1. by apply IH.
Qed.

Lemma download_lists_rows_witness :
  let s := ui_run [EvUpload (Some ("demo.db", Loaded demo_db [demo_table]));
                   EvSettle 0 "10:00:00"] App_init in
  ∃ content,
    downloads (ui_run [EvDownload; EvSettle (length (pending s)) "10:00:01"] s)
      = ("users" +:+ "_pks.txt", content) :: downloads s ∧
    split_LF content = ["1"; "2"; "3"].
Proof.
  intros s.
  apply (download_lists_rows s demo_table "id" "10:00:01" demo_db
           {| columns := ["id"];
              values := [[SqlShown "1"]; [SqlShown "2"]; [SqlShown "3"]] |} []);
    [reflexivity|reflexivity|discriminate|reflexivity|reflexivity
    |discriminate|reflexivity].
Defined.
